(** * Audio-sensor monitor: loudness buffers, statistics and fault flags

    A shallow embedding of [final.py] (the monitor) and of the buffer
    trimming of [audiosensors.py] (the template it grew from).

    Modelling conventions.
    - A Python list is a Rocq [list]; [b[-k:]] is [py_last k b].
    - A [bytes] object is a [list byte]; an [np.int16] is a [Z] in
      [-32768, 32767] and arithmetic on an int16 array wraps ([wrap16]).
    - An [np.float64] is [NaN] or a finite rational [Fin q]: sums, quotients
      and comparisons are exact.  Rounding is not modelled there, so two sums
      that differ only by the rounding of their summation order are equal.
      [np.sqrt] on a non-negative finite value is a parameter [sqrt64] of the
      capture loop.  Where rounding decides, the combined statistics are
      computed again on IEEE binary64 values ([Binary64]).
    - A call that can raise returns a [result]; [print] appends a [message]
      to the [stdout] of the program state.
    - One iteration of a capture loop and one run of the periodic task are
      atomic steps of the interleaving [run]. *)

From Stdlib Require Import List Arith ZArith QArith Qabs Qround Lia Bool.
From Stdlib Require Import Strings.Byte.
From Stdlib Require Strings.String.
From Stdlib Require Floats.PrimFloat Floats.SpecFloat Floats.FloatOps.
From Stdlib Require Numbers.Cyclic.Int63.Uint63.
From Stdlib Require Import Permutation Sorted Morphisms Setoid.
Import ListNotations.

Set Implicit Arguments.

(** * Part I: the program *)

(** ** Python lists *)

Module PyList.

Section Slices.
Context {A : Type}.

(** [b[-k:]]: the last [k] items; [-0] is [0], so [b[-0:]] is all of [b]. *)
Definition py_last (k : nat) (b : list A) : list A :=
  match k with
  | O => b
  | _ => skipn (length b - k) b
  end.

(** [b.append(v)] *)
Definition append (b : list A) (v : A) : list A := b ++ [v].

(** [l[i] = v]; [None] is Python's IndexError. *)
Fixpoint setitem (l : list A) (i : nat) (v : A) : option (list A) :=
  match l, i with
  | [], _ => None
  | _ :: t, O => Some (v :: t)
  | h :: t, S j => option_map (cons h) (setitem t j v)
  end.

(** The most recent [k] items of a stream of arrivals. *)
Definition most_recent (k : nat) (arrivals : list A) : list A :=
  skipn (length arrivals - k) arrivals.

(** [enumerate(l)] *)
Definition enumerate (l : list A) : list (nat * A) :=
  combine (seq 0 (length l)) l.

End Slices.

End PyList.
Import PyList.

(** ** Exceptions *)

Inductive exn : Type :=
| ValueError
| IndexError
| OSError (errno : Z).

Inductive result (A : Type) : Type :=
| Ok (a : A)
| Raise (e : exn).
Arguments Ok {A} a.
Arguments Raise {A} e.

Definition bind {A B : Type} (r : result A) (k : A -> result B) : result B :=
  match r with
  | Ok a => k a
  | Raise e => Raise e
  end.

Notation "x <- r ;; k" := (bind r (fun x => k))
  (at level 61, r at next level, right associativity).

(** ** Floating-point values

    Values in exact arithmetic: what the statistics are before any rounding.
    The properties stated on them do not rest on the last bits of a result;
    where those decide, [Binary64] below computes with the rounding. *)

Module Float64.

Inductive float64 : Type :=
| NaN
| Fin (q : Q).

Definition Qlt_bool (x y : Q) : bool :=
  (Qnum x * QDen y <? Qnum y * QDen x)%Z.

Definition lift2 (f : Q -> Q -> Q) (a b : float64) : float64 :=
  match a, b with
  | Fin x, Fin y => Fin (f x y)
  | _, _ => NaN
  end.

Definition fadd : float64 -> float64 -> float64 := lift2 Qplus.
Definition fsub : float64 -> float64 -> float64 := lift2 Qminus.
Definition fmul : float64 -> float64 -> float64 := lift2 Qmult.

Definition fabs (a : float64) : float64 :=
  match a with
  | NaN => NaN
  | Fin x => Fin (Qabs x)
  end.

(** [a / n] for an element count [n]; [0.0 / 0] is NaN. *)
Definition fdiv_count (a : float64) (n : nat) : float64 :=
  match a, n with
  | Fin x, S _ => Fin (x / inject_Z (Z.of_nat n))
  | _, _ => NaN
  end.

(** [a < b]; every comparison with NaN is false. *)
Definition flt (a b : float64) : bool :=
  match a, b with
  | Fin x, Fin y => Qlt_bool x y
  | _, _ => false
  end.

(** Equality of values: rationals up to [==]. *)
Definition feq (a b : float64) : Prop :=
  match a, b with
  | NaN, NaN => True
  | Fin x, Fin y => x == y
  | _, _ => False
  end.

Definition of_int (z : Z) : float64 := Fin (inject_Z z).

End Float64.
Import Float64.

(** ** The numpy calls of the program *)

Module Numpy.

(** [np.sum]: accumulation from [0.0]. *)
Definition np_sum (a : list float64) : float64 :=
  fold_left fadd a (Fin 0).

(** [np.mean]: the sum over the number of elements, NaN on an empty array. *)
Definition np_mean (a : list float64) : float64 :=
  fdiv_count (np_sum a) (length a).

(** [np.var] with its default [ddof=0]: [mean(abs(a - a.mean())**2)]. *)
Definition np_var (a : list float64) : float64 :=
  let m := np_mean a in
  np_mean (map (fun x => let d := fabs (fsub x m) in fmul d d) a).

(** [np.concatenate]: needs at least one array. *)
Definition np_concatenate (arrays : list (list float64)) : result (list float64) :=
  match arrays with
  | [] => Raise ValueError
  | _ => Ok (concat arrays)
  end.

(** [np.sqrt]: NaN on a negative value. *)
Definition np_sqrt (sqrt64 : Q -> Q) (a : float64) : float64 :=
  match a with
  | NaN => NaN
  | Fin x => if Qlt_bool x 0 then NaN else Fin (sqrt64 x)
  end.

(** An int16 value from any integer, by wrap-around. *)
Definition wrap16 (z : Z) : Z := ((z + 32768) mod 65536 - 32768)%Z.

Definition int16_of_bytes (lo hi : byte) : Z :=
  wrap16 (Z.of_N (Byte.to_N lo) + 256 * Z.of_N (Byte.to_N hi)).

Fixpoint int16_pairs (data : list byte) : list Z :=
  match data with
  | lo :: hi :: rest => int16_of_bytes lo hi :: int16_pairs rest
  | _ => []
  end.

(** [np.frombuffer(data, dtype=np.int16)], little-endian: the buffer size
    must be a multiple of the element size. *)
Definition frombuffer (data : list byte) : result (list Z) :=
  if Nat.even (length data) then Ok (int16_pairs data) else Raise ValueError.

(** [signal ** 2] on an int16 array: the result keeps the dtype. *)
Definition int16_square (signal : list Z) : list Z :=
  map (fun x => wrap16 (x * x)) signal.

(** [np.mean] of an integer array accumulates in float64. *)
Definition np_mean_int (a : list Z) : float64 := np_mean (map of_int a).

End Numpy.
Import Numpy.

(** ** The device buffer

    [final.py]: [buffer[index].append(volume)] followed by the guarded trim
    [if len(buffer[index]) > 100: buffer[index] = buffer[index][-100:]]. *)

Module DeviceBuffer.

Section Push.
Context {A : Type}.

Definition push_limit (cap : nat) (b : list A) (v : A) : list A :=
  let b1 := append b v in
  if (cap <? length b1)%nat then py_last cap b1 else b1.

(** The limit written in [log_sound]. *)
Definition BUFFER_LIMIT : nat := 100.

Definition push : list A -> A -> list A := push_limit BUFFER_LIMIT.

(** The buffer after a sequence of arrivals, starting from the
    [buffer.append([])] of the start-up loop. *)
Definition pushes (cap : nat) (arrivals : list A) : list A :=
  fold_left (push_limit cap) arrivals [].

(** [audiosensors.py]: the capture thread only appends, and the main thread
    trims every buffer with [buffer[i] = buffer[i][-buffer_width:]]. *)
Definition buffer_width : nat := 10.

Definition limit_buffers (buffer : list (list A)) : list (list A) :=
  map (py_last buffer_width) buffer.

End Push.

End DeviceBuffer.
Import DeviceBuffer.

(** ** The monitor of [final.py] *)

Module Monitor.

(** Volume below this value indicates a potential fault. *)
Definition FAULT_THRESHOLD : float64 := Fin 10.

(** The lines the program prints, with the values they format. *)
Inductive message : Type :=
| CombinedStats (mean variance : float64)
| CombinedNoData
| DeviceStats (index : nat) (mean variance : float64)
| DeviceNoData (index : nat)
| MightBeFaulty (index : nat) (mean : float64)
| HasNoData (index : nat)
| ErrorWithDevice (index : nat) (e : exn).

(** How a capture thread left its loop: after closing its stream on
    [quit_flag], or through the exception handler, which closes nothing. *)
Inductive exit_kind : Type :=
| StreamClosed
| StreamLeftOpen.

(** The globals [buffer] and [quit_flag], what was printed, the label
    texts set, and the capture threads that have left their loop. *)
Record state : Type := mkState {
  buffer : list (list float64);
  quit_flag : bool;
  stdout : list message;
  label_text : list (nat * float64);
  exits : list (nat * exit_kind)
}.

Definition print (m : message) (st : state) : state :=
  mkState (buffer st) (quit_flag st) (stdout st ++ [m]) (label_text st) (exits st).

Definition set_buffer (b : list (list float64)) (st : state) : state :=
  mkState b (quit_flag st) (stdout st) (label_text st) (exits st).

Definition setText (index : nat) (volume : float64) (st : state) : state :=
  mkState (buffer st) (quit_flag st) (stdout st)
          (label_text st ++ [(index, volume)]) (exits st).

Definition leave (index : nat) (k : exit_kind) (st : state) : state :=
  mkState (buffer st) (quit_flag st) (stdout st) (label_text st)
          (exits st ++ [(index, k)]).

(** [len(b) > 0] *)
Definition has_data (b : list float64) : bool := (0 <? length b)%nat.

(** [calculate_combined_stats] *)
Definition combined_stats_message (buffer : list (list float64)) : result message :=
  if existsb has_data buffer then
    combined_buffer <- np_concatenate (filter has_data buffer) ;;
    Ok (CombinedStats (np_mean combined_buffer) (np_var combined_buffer))
  else Ok CombinedNoData.

Definition calculate_combined_stats (st : state) : result state :=
  m <- combined_stats_message (buffer st) ;; Ok (print m st).

(** [calculate_device_stats] *)
Definition device_stats_message (buffer : list (list float64)) (index : nat)
  : result message :=
  match nth_error buffer index with
  | None => Raise IndexError
  | Some b =>
      if has_data b then Ok (DeviceStats index (np_mean b) (np_var b))
      else Ok (DeviceNoData index)
  end.

Definition calculate_device_stats (index : nat) (st : state) : result state :=
  m <- device_stats_message (buffer st) index ;; Ok (print m st).

(** [detect_faulty_sources]: the body of its loop for one [(i, b)]. *)
Definition fault_messages (threshold : float64) (ib : nat * list float64)
  : list message :=
  let (i, b) := ib in
  if has_data b && flt (np_mean b) threshold then [MightBeFaulty i (np_mean b)]
  else if (length b =? 0)%nat then [HasNoData i]
  else [].

Definition detect_messages (threshold : float64) (buffer : list (list float64))
  : list message :=
  flat_map (fault_messages threshold) (enumerate buffer).

Definition detect_faulty_sources (st : state) : state :=
  fold_left (fun s m => print m s) (detect_messages FAULT_THRESHOLD (buffer st)) st.

(** One firing of [periodic_tasks]. *)
Definition periodic_tasks (st : state) : result state :=
  st1 <- calculate_combined_stats st ;; Ok (detect_faulty_sources st1).

(** [exit_method] *)
Definition exit_method (st : state) : state :=
  mkState (buffer st) true (stdout st) (label_text st) (exits st).

(** How a call of [stream.read] ends for the loop: with the bytes of a
    frame, or with an exception. *)
Inductive read_result : Type :=
| Frame (data : list byte)
| ReadError (e : exn).

(** The return codes of PortAudio that PyAudio's read tells apart. *)
Definition paNoError : Z := 0.
Definition paInputOverflowed : Z := -9981.
Definition paOutputUnderflowed : Z := -9980.

(** What [Pa_ReadStream] leaves: its return code and the sample buffer. *)
Record pa_read : Type := mkPaRead {
  pa_err : Z;
  pa_data : list byte
}.

(** PyAudio's [Stream.read(num_frames, exception_on_overflow)]: an overflow
    or underflow is raised only on request, and otherwise the buffer is
    returned as it is; every other error code is raised. *)
Definition stream_read (exception_on_overflow : bool) (r : pa_read) : read_result :=
  if (pa_err r =? paNoError)%Z then Frame (pa_data r)
  else if ((pa_err r =? paInputOverflowed) || (pa_err r =? paOutputUnderflowed))%Z
       then if exception_on_overflow then ReadError (OSError (pa_err r))
            else Frame (pa_data r)
  else ReadError (OSError (pa_err r)).

(** The number of samples of a frame, and of the line [AudioPlot] draws. *)
Definition CHUNK : nat := 1024 * 4.

(** [AudioPlot.update_plot]: [set_ydata] and [draw].  The line has [CHUNK]
    x-values; drawing raises ValueError when the new y-values cannot be
    broadcast against them, which they can when there are [CHUNK] of them,
    or one. *)
Definition update_plot (signal : list Z) : result unit :=
  if (length signal =? CHUNK)%nat || (length signal =? 1)%nat then Ok tt
  else Raise ValueError.

Inductive control : Type :=
| Continue
| Break.

Section Capture.
Variable sqrt64 : Q -> Q.

(** [np.sqrt(np.mean(np.frombuffer(data, dtype=np.int16) ** 2))] *)
Definition volume (data : list byte) : result float64 :=
  signal <- frombuffer data ;;
  Ok (np_sqrt sqrt64 (np_mean_int (int16_square signal))).

(** [except Exception as e: print(...); break] *)
Definition handler (index : nat) (e : exn) (st : state) : state * control :=
  (leave index StreamLeftOpen (print (ErrorWithDevice index e) st), Break).

(** One pass through the body of [while True] in [log_sound]. *)
Definition log_sound_iteration (index : nat) (r : read_result) (st : state)
  : state * control :=
  match r with
  | ReadError e => handler index e st
  | Frame data =>
      match frombuffer data with
      | Raise e => handler index e st
      | Ok signal =>
          let v := np_sqrt sqrt64 (np_mean_int (int16_square signal)) in
          let st1 := setText index v st in
          match update_plot signal with
          | Raise e => handler index e st1
          | Ok _ =>
              match nth_error (buffer st1) index with
              | None => handler index IndexError st1
              | Some b =>
                  match setitem (buffer st1) index (push b v) with
                  | None => handler index IndexError st1
                  | Some buffer' =>
                      let st2 := set_buffer buffer' st1 in
                      match calculate_device_stats index st2 with
                      | Raise e => handler index e st2
                      | Ok st3 =>
                          if quit_flag st3
                          then (leave index StreamClosed st3, Break)
                          else (st3, Continue)
                      end
                  end
              end
          end
      end
  end.

(** The loop of one capture thread over the reads its stream delivers. *)
Fixpoint log_sound (index : nat) (reads : list read_result) (st : state)
  : state * control :=
  match reads with
  | [] => (st, Continue)
  | r :: rest =>
      match log_sound_iteration index r st with
      | (st', Break) => (st', Break)
      | (st', Continue) => log_sound index rest st'
      end
  end.

Definition in_loop (index : nat) (st : state) : bool :=
  negb (existsb (fun p => (fst p =? index)%nat) (exits st)).

(** The interleaving of the threads: the quit signal, one iteration of one
    capture loop, one firing of the periodic task. *)
Inductive op : Type :=
| ExitMethod
| LogSound (index : nat) (r : read_result)
| PeriodicTasks.

Definition step (st : state) (o : op) : state :=
  match o with
  | ExitMethod => exit_method st
  | LogSound index r =>
      if in_loop index st then fst (log_sound_iteration index r st) else st
  | PeriodicTasks =>
      match periodic_tasks st with
      | Ok st' => st'
      | Raise _ => st
      end
  end.

Definition run (ops : list op) (st : state) : state := fold_left step ops st.

End Capture.

(** The state after the start-up loop has found [n] input devices. *)
Definition initial (n : nat) : state :=
  mkState (repeat [] n) false [] [] [].

(** A stand-in for [np.sqrt] to run the capture loop on examples: the square
    root rounded down to an integer. *)
Definition sqrt_floor (q : Q) : Q := inject_Z (Z.sqrt (Qfloor q)).

(** The buffers of the specification's worked example. *)
Definition example_buffers : list (list float64) :=
  [map of_int [50; 52; 51]%Z; map of_int [2; 1; 3]%Z].

End Monitor.
Import Monitor.

(** ** The statistics as the specification words them *)

Module Spec.

Definition total (l : list float64) : float64 := fold_right fadd (Fin 0) l.


Definition squared_deviations (l : list float64) : float64 :=
  let mu := fdiv_count (total l) (length l) in
  total (map (fun x => fmul (fsub x mu) (fsub x mu)) l).

(** The population variance: the sum of squared deviations from the mean
    divided by [n]. *)
Definition population_variance (l : list float64) : float64 :=
  fdiv_count (squared_deviations l) (length l).

(** The sample variance divides by [n - 1] instead. *)
Definition sample_variance (l : list float64) : float64 :=
  fdiv_count (squared_deviations l) (length l - 1).

End Spec.
Import Spec.

(** ** Start-up of [final.py] *)

Module Startup.

(** What [get_device_info_by_host_api_device_index] tells about a device. *)
Record device_info : Type := mkDevice {
  name : String.string;
  maxInputChannels : Z
}.

(** [device_info.get('maxInputChannels') > 0] *)
Definition is_input (d : device_info) : bool := (0 <? maxInputChannels d)%Z.

Inductive listing : Type :=
| AvailableDevices
| InputDeviceId (i : nat) (name : String.string).

(** [list_audio_devices] *)
Definition list_audio_devices (devices : list device_info) : list listing :=
  AvailableDevices
    :: flat_map (fun id => if is_input (snd id)
                           then [InputDeviceId (fst id) (name (snd id))]
                           else [])
                (enumerate devices).

(** The globals the start-up loop fills: a label and a plot per input
    device (each stands for the device index it was made for), the buffers,
    the [index] argument of every thread created, and of every thread
    started. *)
Record globals : Type := mkGlobals {
  labels : list nat;
  g_buffer : list (list float64);
  plots : list nat;
  threads : list nat;
  started : list nat
}.

Definition no_globals : globals := mkGlobals [] [] [] [] [].

(** The body of [for i in range(numdevices)]; [labels[i]], [plots[i]] and
    [threads[i]] index by the device number, not by the position of the
    device among the input devices. *)
Definition startup_iteration (i : nat) (d : device_info) (g : globals)
  : globals * option exn :=
  if is_input d then
    let g1 := mkGlobals (labels g ++ [i]) (g_buffer g ++ [[]]) (plots g ++ [i])
                        (threads g) (started g) in
    match nth_error (labels g1) i, nth_error (plots g1) i with
    | Some _, Some _ =>
        let g2 := mkGlobals (labels g1) (g_buffer g1) (plots g1)
                            (threads g1 ++ [i]) (started g1) in
        match nth_error (threads g2) i with
        | Some t =>
            (mkGlobals (labels g2) (g_buffer g2) (plots g2) (threads g2)
                       (started g2 ++ [t]), None)
        | None => (g2, Some IndexError)
        end
    | _, _ => (g1, Some IndexError)
    end
  else (g, None).

(** The loop from device number [i] on; an exception ends the script. *)
Fixpoint startup_from (i : nat) (devices : list device_info) (g : globals)
  : globals * option exn :=
  match devices with
  | [] => (g, None)
  | d :: rest =>
      match startup_iteration i d g with
      | (g', None) => startup_from (S i) rest g'
      | (g', Some e) => (g', Some e)
      end
  end.

Definition startup (devices : list device_info) : globals * option exn :=
  startup_from 0 devices no_globals.

(** The device numbers a listing names. *)
Definition listed_ids (lines : list listing) : list nat :=
  flat_map (fun l => match l with
                     | AvailableDevices => []
                     | InputDeviceId i _ => [i]
                     end) lines.

(** Whether the input devices come first in the enumeration. *)
Fixpoint inputs_first (inputs : list bool) : bool :=
  match inputs with
  | [] => true
  | true :: rest => inputs_first rest
  | false :: rest => forallb negb rest
  end.

End Startup.
Import Startup.

(** ** The template [audiosensors.py] *)

Module Template.

(** [audioop.rms(data, 2)]: the fragment must hold whole samples ([None]
    is [audioop.error]); the result is the integer part of the root of the
    mean square, 0 for an empty fragment. *)
Definition audioop_rms (data : list byte) : option Z :=
  if Nat.even (length data) then
    match int16_pairs data with
    | [] => Some 0%Z
    | signal =>
        Some (Z.sqrt (fold_right Z.add 0%Z (map (fun x => x * x)%Z signal)
                      / Z.of_nat (length signal)))
    end
  else None.

End Template.

(** ** The combined statistics in binary64

    The same numpy calls on IEEE binary64 values, with the rounding of every
    operation, to tell what exact arithmetic gives from what the program
    computes. *)

Module Binary64.

Definition float : Set := PrimFloat.float.















(** The rational a finite binary64 value stands for. *)
Definition value (x : float) : option Q :=
  match FloatOps.Prim2SF x with
  | SpecFloat.S754_zero _ => Some 0
  | SpecFloat.S754_finite s m e =>
      Some (inject_Z (if s then Z.neg m else Z.pos m) * 2 ^ e)
  | _ => None
  end.

(** A binary64 sample as a sample of the exact statistics. *)
Definition exact (x : float) : float64 :=
  match value x with
  | Some q => Fin q
  | None => NaN
  end.


Section Examples.
Import PrimFloat.





End Examples.

End Binary64.
Import Binary64.

(** * Part II: properties *)

(** ** Bounded history *)

Section BufferFacts.
Context {A : Type}.
Implicit Types (b arrivals : list A) (cap k : nat).

Lemma py_last_pos k b : (0 < k)%nat -> py_last k b = most_recent k b.
Proof. destruct k; [lia | reflexivity]. Qed.

Lemma most_recent_length k b : length (most_recent k b) = Nat.min (length b) k.
Proof. unfold most_recent. rewrite length_skipn. lia. Qed.

Lemma most_recent_short k b : (length b <= k)%nat -> most_recent k b = b.
Proof.
  intros H. unfold most_recent.
  replace (length b - k)%nat with O by lia. reflexivity.
Qed.

Lemma most_recent_suffix k b : exists older, b = older ++ most_recent k b.
Proof.
  exists (firstn (length b - k) b). unfold most_recent.
  now rewrite firstn_skipn.
Qed.

Lemma most_recent_snoc k b v :
  (0 < k)%nat ->
  most_recent k (most_recent k b ++ [v]) = most_recent k (b ++ [v]).
Proof.
  intros Hk. unfold most_recent.
  rewrite !length_app, length_skipn. cbn [length].
  destruct (Nat.le_gt_cases (length b) k) as [Hle | Hgt].
  - replace (length b - k)%nat with O by lia. cbn [skipn].
    f_equal. lia.
  - rewrite !skipn_app, length_skipn.
    replace (length b - (length b - k) + 1 - k)%nat with 1%nat by lia.
    replace (1 - (length b - (length b - k)))%nat with O by lia.
    replace (length b + 1 - k - length b)%nat with O by lia.
    f_equal. rewrite skipn_skipn. f_equal. lia.
Qed.

Lemma push_limit_most_recent cap b v :
  (0 < cap)%nat -> (length b <= cap)%nat ->
  push_limit cap b v = most_recent cap (b ++ [v]).
Proof.
  intros Hc Hb. unfold push_limit, append.
  destruct (Nat.ltb_spec cap (length (b ++ [v]))) as [Hlt | Hge].
  - now apply py_last_pos.
  - symmetry. now apply most_recent_short.
Qed.


Lemma fold_push_most_recent cap (Hc : (0 < cap)%nat) arrivals :
  forall seen,
    fold_left (push_limit cap) arrivals (most_recent cap seen)
    = most_recent cap (seen ++ arrivals).
Proof.
  induction arrivals as [| v vs IH]; intros seen; cbn [fold_left].
  - now rewrite app_nil_r.
  - rewrite push_limit_most_recent; auto.
    + rewrite most_recent_snoc by assumption.
      rewrite IH, <- app_assoc. reflexivity.
    + rewrite most_recent_length. lia.
Qed.

Lemma pushes_most_recent cap arrivals :
  (0 < cap)%nat -> pushes cap arrivals = most_recent cap arrivals.
Proof.
  intros Hc. unfold pushes.
  change (@nil A) with (most_recent cap (@nil A)).
  now rewrite fold_push_most_recent.
Qed.

(** The trim of [audiosensors.py] leaves every buffer with its ten most
    recent samples; between two trims the capture threads append freely. *)
Lemma limit_buffers_most_recent (buffer : list (list A)) i b :
  nth_error buffer i = Some b ->
  nth_error (limit_buffers buffer) i = Some (most_recent buffer_width b).
Proof.
  intros H. unfold limit_buffers.
  rewrite nth_error_map, H. reflexivity.
Qed.

(** C1. Starting from the empty buffer of a device, after any sequence of
    pushes with a capacity [N >= 1] (the program's is 100), the buffer holds
    exactly [min(total pushes, N)] samples, they are the latest pushed values
    in arrival order (a suffix of the arrivals), and the length is at most [N]. *)
Theorem pushes_hold_most_recent (N : nat) (arrivals : list A) :
  (0 < N)%nat ->
  length (pushes N arrivals) = Nat.min (length arrivals) N
  /\ (exists older, arrivals = older ++ pushes N arrivals)
  /\ (length (pushes N arrivals) <= N)%nat.
Proof.
  intros HN. rewrite pushes_most_recent by assumption.
  rewrite most_recent_length. split; [reflexivity |].
  split; [apply most_recent_suffix | lia].
Qed.

End BufferFacts.

Lemma pushes_hold_most_recent_witness :
  length (pushes 2 [1; 2; 3]%Z) = Nat.min (length [1; 2; 3]%Z) 2
  /\ (exists older, [1; 2; 3]%Z = older ++ pushes 2 [1; 2; 3]%Z)
  /\ (length (pushes 2 [1; 2; 3]%Z) <= 2)%nat.
Proof. apply (pushes_hold_most_recent (N := 2) [1; 2; 3]%Z). lia. Defined.


(** ** Arithmetic on float values *)

Lemma Qlt_bool_iff (x y : Q) : Qlt_bool x y = true <-> x < y.
Proof. unfold Qlt_bool, Qlt. apply Z.ltb_lt. Qed.

Lemma Qlt_bool_irrefl (x y : Q) : x == y -> Qlt_bool x y = false.
Proof.
  intros H. destruct (Qlt_bool x y) eqn:E; [| reflexivity].
  apply Qlt_bool_iff in E. rewrite H in E. now apply Qlt_irrefl in E.
Qed.

#[export] Instance feq_equiv : Equivalence feq.
Proof.
  split.
  - intros [| x]; cbn; [exact I | reflexivity].
  - intros [| x] [| y]; cbn; auto. intros H; now symmetry.
  - intros [| x] [| y] [| z]; cbn; auto; try contradiction.
    intros H1 H2; now rewrite H1.
Qed.

#[export] Instance Qlt_bool_proper : Proper (Qeq ==> Qeq ==> eq) Qlt_bool.
Proof.
  intros x x' Hx y y' Hy.
  destruct (Qlt_bool x y) eqn:E1, (Qlt_bool x' y') eqn:E2; try reflexivity.
  - apply Qlt_bool_iff in E1. rewrite Hx, Hy in E1.
    apply Qlt_bool_iff in E1. congruence.
  - apply Qlt_bool_iff in E2. rewrite <- Hx, <- Hy in E2.
    apply Qlt_bool_iff in E2. congruence.
Qed.

#[export] Instance fadd_proper : Proper (feq ==> feq ==> feq) fadd.
Proof.
  intros [| x] [| x'] Hx [| y] [| y'] Hy; cbn in *; try contradiction; auto.
  now rewrite Hx, Hy.
Qed.

#[export] Instance fsub_proper : Proper (feq ==> feq ==> feq) fsub.
Proof.
  intros [| x] [| x'] Hx [| y] [| y'] Hy; cbn in *; try contradiction; auto.
  now rewrite Hx, Hy.
Qed.

#[export] Instance fmul_proper : Proper (feq ==> feq ==> feq) fmul.
Proof.
  intros [| x] [| x'] Hx [| y] [| y'] Hy; cbn in *; try contradiction; auto.
  now rewrite Hx, Hy.
Qed.

#[export] Instance fabs_proper : Proper (feq ==> feq) fabs.
Proof.
  intros [| x] [| x'] Hx; cbn in *; try contradiction; auto.
  now rewrite Hx.
Qed.

#[export] Instance fdiv_count_proper : Proper (feq ==> eq ==> feq) fdiv_count.
Proof.
  intros [| x] [| x'] Hx n n' <-; destruct n; cbn in *; try contradiction; auto.
  now rewrite Hx.
Qed.

#[export] Instance flt_proper : Proper (feq ==> feq ==> eq) flt.
Proof.
  intros [| x] [| x'] Hx [| y] [| y'] Hy; cbn in *; try contradiction; auto.
  now rewrite Hx, Hy.
Qed.

Lemma fadd_swap (a x y : float64) : feq (fadd (fadd a x) y) (fadd (fadd a y) x).
Proof. destruct a, x, y; cbn; auto. ring. Qed.

Lemma fabs_square (d : float64) : feq (fmul (fabs d) (fabs d)) (fmul d d).
Proof.
  destruct d as [| x]; cbn; [exact I |].
  rewrite <- Qabs_Qmult. apply Qabs_pos.
  destruct (Qlt_le_dec x 0) as [Hn | Hp].
  - setoid_replace (x * x) with ((- x) * (- x)) by ring.
    apply Qmult_le_0_compat; apply (Qopp_le_compat x 0), Qlt_le_weak, Hn.
  - now apply Qmult_le_0_compat.
Qed.

(** ** Sums and means *)

Lemma fold_fadd_proper (l : list float64) :
  forall a a', feq a a' -> feq (fold_left fadd l a) (fold_left fadd l a').
Proof.
  induction l as [| x l IH]; intros a a' H; cbn; [exact H |].
  apply IH. now rewrite H.
Qed.




Lemma fold_fadd_app (l l' : list float64) (a : float64) :
  fold_left fadd (l ++ l') a = fold_left fadd l' (fold_left fadd l a).
Proof. apply fold_left_app. Qed.

Lemma fold_fadd_shift (l : list float64) (a c : float64) :
  feq (fold_left fadd l (fadd a c)) (fadd (fold_left fadd l a) c).
Proof.
  revert a. induction l as [| x l IH]; intros a; cbn; [reflexivity |].
  rewrite <- IH. apply fold_fadd_proper, fadd_swap.
Qed.

Lemma fadd_zero_l (a : float64) : feq (fadd (Fin 0) a) a.
Proof. destruct a; cbn; [exact I | ring]. Qed.

Lemma np_sum_app (l l' : list float64) :
  feq (np_sum (l ++ l')) (fadd (np_sum l) (np_sum l')).
Proof.
  unfold np_sum. rewrite fold_fadd_app.
  set (s := fold_left fadd l (Fin 0)).
  transitivity (fold_left fadd l' (fadd (Fin 0) s)).
  - apply fold_fadd_proper. symmetry. apply fadd_zero_l.
  - rewrite fold_fadd_shift.
    destruct (fold_left fadd l' (Fin 0)), s; cbn; auto. ring.
Qed.

(** ** Fault flags *)

Lemma In_combine_seq {A : Type} (l : list A) (s i : nat) (x : A) :
  In (i, x) (combine (seq s (length l)) l)
  <-> (s <= i)%nat /\ nth_error l (i - s) = Some x.
Proof.
  revert s. induction l as [| h t IH]; intros s; cbn.
  - split; [tauto |]. intros [_ H]. destruct (i - s)%nat; discriminate.
  - rewrite IH. split.
    + intros [E | [Hle Hn]].
      * injection E as <- <-. split; [lia |]. now rewrite Nat.sub_diag.
      * split; [lia |]. replace (i - s)%nat with (S (i - S s)) by lia. exact Hn.
    + intros [Hle Hn]. destruct (Nat.eq_dec s i) as [<- | Hne].
      * left. rewrite Nat.sub_diag in Hn. cbn in Hn. congruence.
      * right. split; [lia |].
        replace (i - s)%nat with (S (i - S s)) in Hn by lia. exact Hn.
Qed.

Lemma In_enumerate {A : Type} (l : list A) (i : nat) (x : A) :
  In (i, x) (enumerate l) <-> nth_error l i = Some x.
Proof.
  unfold enumerate. rewrite In_combine_seq, Nat.sub_0_r.
  split; [tauto | split; [lia | assumption]].
Qed.

Lemma In_detect_messages threshold buffer m :
  In m (detect_messages threshold buffer)
  <-> exists i b, nth_error buffer i = Some b /\ In m (fault_messages threshold (i, b)).
Proof.
  unfold detect_messages. rewrite in_flat_map. split.
  - intros [[i b] [Hin Hm]]. apply In_enumerate in Hin. eauto.
  - intros (i & b & Hn & Hm). exists (i, b). now rewrite In_enumerate.
Qed.

Lemma has_data_true b : has_data b = true <-> b <> [].
Proof.
  unfold has_data. rewrite Nat.ltb_lt. destruct b; cbn; split; intros H;
    try lia; congruence.
Qed.

Lemma has_data_false b : has_data b = false <-> b = [].
Proof.
  unfold has_data. rewrite Nat.ltb_ge. destruct b; cbn; split; intros H;
    try lia; try congruence; try discriminate.
Qed.

(** The flags of one device follow from its buffer alone. *)
Lemma fault_messages_cases threshold i b :
  fault_messages threshold (i, b) =
    if has_data b then
      if flt (np_mean b) threshold then [MightBeFaulty i (np_mean b)] else []
    else [HasNoData i].
Proof.
  unfold fault_messages. destruct b as [| x b]; [reflexivity |].
  cbn [has_data length Nat.ltb Nat.leb andb Nat.eqb].
  reflexivity.
Qed.

Lemma faulty_flag_iff threshold buffer i b :
  nth_error buffer i = Some b ->
  (exists m, In (MightBeFaulty i m) (detect_messages threshold buffer))
  <-> b <> [] /\ flt (np_mean b) threshold = true.
Proof.
  intros Hn. split.
  - intros [m Hm]. apply In_detect_messages in Hm.
    destruct Hm as (j & b' & Hj & Hin).
    rewrite fault_messages_cases in Hin.
    destruct (has_data b') eqn:Hd; [destruct (flt (np_mean b') threshold) eqn:Hf |];
      cbn in Hin; try tauto.
    + destruct Hin as [E | []]. injection E as -> _.
      assert (b' = b) as -> by congruence.
      split; [now apply has_data_true | assumption].
    + destruct Hin as [E | []]. discriminate.
  - intros [Hne Hf]. exists (np_mean b). apply In_detect_messages.
    exists i, b. split; [assumption |].
    rewrite fault_messages_cases.
    apply has_data_true in Hne. rewrite Hne, Hf. now left.
Qed.

Lemma no_data_flag_iff threshold buffer i b :
  nth_error buffer i = Some b ->
  In (HasNoData i) (detect_messages threshold buffer) <-> b = [].
Proof.
  intros Hn. split.
  - intros Hm. apply In_detect_messages in Hm.
    destruct Hm as (j & b' & Hj & Hin).
    rewrite fault_messages_cases in Hin.
    destruct (has_data b') eqn:Hd; [destruct (flt (np_mean b') threshold) |];
      cbn in Hin; try tauto.
    + destruct Hin as [E | []]. discriminate.
    + destruct Hin as [E | []]. injection E as ->.
      assert (b' = b) as -> by congruence. now apply has_data_false.
  - intros ->. apply In_detect_messages. exists i, []. split; [assumption |].
    now left.
Qed.

(** C2. A device is flagged faulty exactly when its buffer is non-empty and
    the mean of its values is below the threshold, and flagged "no data"
    exactly when its buffer is empty.  With buffers [50,52,51] and [2,1,3]
    and threshold 10 the only flag is "faulty" for device 1, whose mean is 2,
    and the combined mean is 26.5. *)
Theorem fault_flags_spec :
  (forall threshold buffer i b,
      nth_error buffer i = Some b ->
      ((exists m, In (MightBeFaulty i m) (detect_messages threshold buffer))
       <-> b <> [] /\ flt (np_mean b) threshold = true)
      /\ (In (HasNoData i) (detect_messages threshold buffer) <-> b = []))
  /\ (exists m1, detect_messages (Fin 10) example_buffers = [MightBeFaulty 1 m1]
                 /\ feq m1 (Fin 2))
  /\ (exists m v, combined_stats_message example_buffers = Ok (CombinedStats m v)
                   /\ feq m (Fin (53 # 2))).
Proof.
  split; [| split].
  - intros threshold buffer i b Hn. split.
    + now apply faulty_flag_iff.
    + now apply no_data_flag_iff.
  - eexists. split; [vm_compute; reflexivity | vm_compute; reflexivity].
  - do 2 eexists. split; [vm_compute; reflexivity | vm_compute; reflexivity].
Qed.

Lemma fault_flags_spec_witness :
  ((exists m, In (MightBeFaulty 1 m) (detect_messages (Fin 10) example_buffers))
   <-> map of_int [2; 1; 3]%Z <> [] /\ flt (np_mean (map of_int [2; 1; 3]%Z)) (Fin 10) = true)
  /\ (In (HasNoData 1) (detect_messages (Fin 10) example_buffers)
      <-> map of_int [2; 1; 3]%Z = []).
Proof.
  apply (proj1 fault_flags_spec (Fin 10) example_buffers 1%nat (map of_int [2; 1; 3]%Z)).
  reflexivity.
Defined.

(** C9. The comparison is strict: a device whose buffer is non-empty is
    flagged faulty exactly when its mean is a number strictly below the
    threshold, so a mean equal to the threshold raises no flag. *)
Theorem fault_comparison_strict threshold buffer i b :
  nth_error buffer i = Some b ->
  b <> [] ->
  ((exists m, In (MightBeFaulty i m) (detect_messages threshold buffer))
   <-> exists x t, np_mean b = Fin x /\ threshold = Fin t /\ x < t)
  /\ (feq (np_mean b) threshold ->
      forall m, ~ In (MightBeFaulty i m) (detect_messages threshold buffer)).
Proof.
  intros Hn Hne.
  pose proof (faulty_flag_iff threshold _ _ Hn) as Hiff.
  split.
  - rewrite Hiff. split.
    + intros [_ Hf].
      destruct (np_mean b) as [| x], threshold as [| t]; cbn in Hf; try discriminate.
      exists x, t. repeat split. now apply Qlt_bool_iff.
    + intros (x & t & -> & -> & Hlt). split; [assumption |].
      now apply Qlt_bool_iff.
  - intros Heq m Hin.
    assert (Hex : exists m', In (MightBeFaulty i m') (detect_messages threshold buffer))
      by eauto.
    apply Hiff in Hex. destruct Hex as [_ Hf].
    rewrite Heq in Hf.
    destruct threshold as [| t]; cbn in Hf; [discriminate |].
    rewrite Qlt_bool_irrefl in Hf; [discriminate | reflexivity].
Qed.

Lemma fault_comparison_strict_witness :
  nth_error [map of_int [10; 10]%Z] 0 = Some (map of_int [10; 10]%Z)
  /\ map of_int [10; 10]%Z <> []
  /\ feq (np_mean (map of_int [10; 10]%Z)) FAULT_THRESHOLD
  /\ forall m, ~ In (MightBeFaulty 0 m)
                 (detect_messages FAULT_THRESHOLD [map of_int [10; 10]%Z]).
Proof.
  assert (H1 : nth_error [map of_int [10; 10]%Z] 0 = Some (map of_int [10; 10]%Z))
    by reflexivity.
  assert (H2 : map of_int [10; 10]%Z <> []) by discriminate.
  assert (H3 : feq (np_mean (map of_int [10; 10]%Z)) FAULT_THRESHOLD)
    by (vm_compute; reflexivity).
  repeat split; try assumption.
  exact (proj2 (@fault_comparison_strict FAULT_THRESHOLD _ _ _ H1 H2) H3).
Defined.

(** ** Aggregation never fails *)

Lemma print_all_stdout (ms : list message) (st : state) :
  fold_left (fun s m => print m s) ms st
  = mkState (buffer st) (quit_flag st) (stdout st ++ ms) (label_text st) (exits st).
Proof.
  revert st. induction ms as [| m ms IH]; intros st; cbn.
  - rewrite app_nil_r. now destruct st.
  - rewrite IH. cbn. now rewrite <- app_assoc.
Qed.

Lemma detect_faulty_sources_eq (st : state) :
  detect_faulty_sources st
  = mkState (buffer st) (quit_flag st)
            (stdout st ++ detect_messages FAULT_THRESHOLD (buffer st))
            (label_text st) (exits st).
Proof. apply print_all_stdout. Qed.

Lemma existsb_filter_nonempty {A : Type} (f : A -> bool) (l : list A) :
  existsb f l = true -> filter f l <> [].
Proof.
  induction l as [| x l IH]; cbn; [discriminate |].
  destruct (f x); cbn; [discriminate | exact IH].
Qed.

Lemma combined_stats_message_cases buffer :
  combined_stats_message buffer =
    if existsb has_data buffer then
      Ok (CombinedStats (np_mean (concat (filter has_data buffer)))
                        (np_var (concat (filter has_data buffer))))
    else Ok CombinedNoData.
Proof.
  unfold combined_stats_message.
  destruct (existsb has_data buffer) eqn:E; [| reflexivity].
  apply existsb_filter_nonempty in E.
  destruct (filter has_data buffer); [congruence | reflexivity].
Qed.

Lemma periodic_tasks_total (st : state) :
  exists m,
    combined_stats_message (buffer st) = Ok m
    /\ periodic_tasks st
       = Ok (mkState (buffer st) (quit_flag st)
                     (stdout st ++ m :: detect_messages FAULT_THRESHOLD (buffer st))
                     (label_text st) (exits st)).
Proof.
  unfold periodic_tasks, calculate_combined_stats.
  rewrite combined_stats_message_cases.
  destruct (existsb has_data (buffer st)); eexists; (split; [reflexivity |]);
    cbn [bind]; rewrite detect_faulty_sources_eq; cbn;
    now rewrite <- app_assoc.
Qed.

Lemma existsb_all_empty (buffer : list (list float64)) :
  Forall (fun b => b = []) buffer -> existsb has_data buffer = false.
Proof. induction 1 as [| b l -> _ IH]; cbn; [reflexivity | exact IH]. Qed.

Lemma detect_all_empty threshold (l : list (list float64)) :
  Forall (fun b => b = []) l ->
  forall s, flat_map (fault_messages threshold) (combine (seq s (length l)) l)
            = map HasNoData (seq s (length l)).
Proof.
  induction 1 as [| b l -> _ IH]; intros s; cbn; [reflexivity |].
  now rewrite IH.
Qed.

(** C3. For an empty device buffer the per-device statistics are the
    explicit "no data" line, not a numeric value; the periodic aggregation
    never raises, and when every buffer is empty it prints "no data" for the
    combined statistics and for each device. *)
Theorem empty_buffers_give_no_data :
  (forall st index,
      nth_error (buffer st) index = Some [] ->
      calculate_device_stats index st = Ok (print (DeviceNoData index) st))
  /\ (forall st, exists st', periodic_tasks st = Ok st')
  /\ (forall st,
         Forall (fun b => b = []) (buffer st) ->
         exists st',
           periodic_tasks st = Ok st'
           /\ stdout st' = stdout st ++ CombinedNoData
                             :: map HasNoData (seq 0 (length (buffer st)))).
Proof.
  split; [| split].
  - intros st index H. unfold calculate_device_stats, device_stats_message.
    now rewrite H.
  - intros st. destruct (periodic_tasks_total st) as (m & _ & ->). eauto.
  - intros st Hall. destruct (periodic_tasks_total st) as (m & Hm & ->).
    eexists. split; [reflexivity |]. cbn.
    rewrite combined_stats_message_cases, (existsb_all_empty Hall) in Hm.
    injection Hm as <-. unfold detect_messages, enumerate.
    now rewrite detect_all_empty.
Qed.

Lemma empty_buffers_give_no_data_witness :
  calculate_device_stats 1 (initial 2) = Ok (print (DeviceNoData 1) (initial 2))
  /\ exists st',
      periodic_tasks (initial 2) = Ok st'
      /\ stdout st' = [CombinedNoData; HasNoData 0; HasNoData 1].
Proof.
  split.
  - apply (proj1 empty_buffers_give_no_data (initial 2) 1%nat). reflexivity.
  - apply (proj2 (proj2 empty_buffers_give_no_data) (initial 2)).
    repeat constructor.
Defined.

(** ** Pooled statistics *)


Lemma np_sum_total (l : list float64) : feq (np_sum l) (total l).
Proof.
  induction l as [| x l IH]; [reflexivity |].
  change (x :: l) with ([x] ++ l) at 1. rewrite np_sum_app, IH.
  change (total (x :: l)) with (fadd x (total l)).
  change (np_sum [x]) with (fadd (Fin 0) x).
  destruct x, (total l); cbn; auto. ring.
Qed.









(** ** Variance *)

Lemma total_map_ext (f g : float64 -> float64) (l : list float64) :
  (forall x, feq (f x) (g x)) -> feq (total (map f l)) (total (map g l)).
Proof.
  intros H. induction l as [| x l IH]; [reflexivity |].
  cbn [map]. change (total (?a :: ?r)) with (fadd a (total r)).
  now rewrite H, IH.
Qed.

Lemma np_mean_total (l : list float64) :
  feq (np_mean l) (fdiv_count (total l) (length l)).
Proof. unfold np_mean. now rewrite np_sum_total. Qed.

Lemma np_var_population (l : list float64) :
  feq (np_var l) (population_variance l).
Proof.
  unfold np_var, population_variance, squared_deviations.
  rewrite np_mean_total, length_map.
  apply fdiv_count_proper; [| reflexivity].
  apply total_map_ext. intros x. cbv zeta. rewrite fabs_square.
  now rewrite np_mean_total.
Qed.

Lemma Qdiv_consecutive (s a b : Q) :
  a - b == 1 -> ~ a == 0 -> ~ b == 0 -> s / a == s / b -> s == 0.
Proof.
  intros Hab Ha Hb E.
  assert (Hs : s == (s / b - s / a) * (a * b)).
  { transitivity (s * (a - b)); [rewrite Hab; ring | field; split; assumption]. }
  rewrite Hs, E. ring.
Qed.

Lemma population_not_sample (l : list float64) (s : Q) :
  (2 <= length l)%nat -> squared_deviations l = Fin s -> ~ s == 0 ->
  ~ feq (population_variance l) (sample_variance l).
Proof.
  intros Hlen Hs Hnz. unfold population_variance, sample_variance.
  rewrite Hs. destruct (length l) as [| [| k]]; try lia.
  cbn [Nat.sub fdiv_count feq].
  intros E. apply Hnz. revert E. apply Qdiv_consecutive.
  - rewrite (Nat2Z.inj_succ (S k)). unfold Z.succ. rewrite inject_Z_plus. ring.
  - change 0 with (inject_Z 0). rewrite inject_Z_injective. lia.
  - change 0 with (inject_Z 0). rewrite inject_Z_injective. lia.
Qed.

(** C10. The variance printed for a device with a non-empty buffer and the
    combined variance over the pooled samples are the population variance:
    the sum of squared deviations from the mean divided by the number [n] of
    samples.  Whenever there are two samples or more and the deviations are
    not all zero, this differs from the quotient by [n - 1]. *)
Theorem variance_is_population :
  (forall buffer i b,
      nth_error buffer i = Some b -> b <> [] ->
      exists m v, device_stats_message buffer i = Ok (DeviceStats i m v)
                  /\ feq v (population_variance b))
  /\ (forall buffer,
         existsb has_data buffer = true ->
         exists m v, combined_stats_message buffer = Ok (CombinedStats m v)
                     /\ feq v (population_variance (concat (filter has_data buffer))))
  /\ (forall l s,
         (2 <= length l)%nat -> squared_deviations l = Fin s -> ~ s == 0 ->
         ~ feq (np_var l) (sample_variance l)).
Proof.
  split; [| split].
  - intros buffer i b Hn Hne. unfold device_stats_message. rewrite Hn.
    apply has_data_true in Hne. rewrite Hne.
    do 2 eexists. split; [reflexivity | apply np_var_population].
  - intros buffer He. rewrite combined_stats_message_cases, He.
    do 2 eexists. split; [reflexivity | apply np_var_population].
  - intros l s Hlen Hs Hnz. rewrite np_var_population.
    now apply (population_not_sample l Hlen Hs).
Qed.

Lemma variance_is_population_witness :
  (exists m v, device_stats_message example_buffers 1 = Ok (DeviceStats 1 m v)
               /\ feq v (population_variance (map of_int [2; 1; 3]%Z)))
  /\ (exists m v, combined_stats_message example_buffers = Ok (CombinedStats m v)
                  /\ feq v (population_variance (concat (filter has_data example_buffers))))
  /\ ~ feq (np_var (map of_int [2; 1; 3]%Z)) (sample_variance (map of_int [2; 1; 3]%Z)).
Proof.
  split; [| split].
  - apply (proj1 variance_is_population example_buffers 1%nat (map of_int [2; 1; 3]%Z)).
    + reflexivity.
    + discriminate.
  - apply (proj1 (proj2 variance_is_population) example_buffers). reflexivity.
  - eapply (proj2 (proj2 variance_is_population) (map of_int [2; 1; 3]%Z)).
    + cbn. lia.
    + vm_compute. reflexivity.
    + intros E. vm_compute in E. discriminate E.
Defined.

(** ** The capture loop *)

Section SetItem.
Context {A : Type}.
Implicit Types (l : list A) (i j : nat) (v : A).

Lemma setitem_nth_same l i v l' :
  setitem l i v = Some l' -> nth_error l' i = Some v.
Proof.
  revert i l'. induction l as [| h t IH]; intros [| j] l' H; cbn in H;
    try discriminate.
  - injection H as <-. reflexivity.
  - destruct (setitem t j v) eqn:E; cbn in H; [| discriminate].
    injection H as <-. cbn. eauto.
Qed.

Lemma setitem_nth_other l i v l' j :
  setitem l i v = Some l' -> i <> j -> nth_error l' j = nth_error l j.
Proof.
  revert i l' j. induction l as [| h t IH]; intros [| i] l' [| j] H Hne;
    cbn in H; try discriminate; try congruence.
  - injection H as <-. reflexivity.
  - destruct (setitem t i v); cbn in H; [| discriminate].
    injection H as <-. reflexivity.
  - destruct (setitem t i v) eqn:E; cbn in H; [| discriminate].
    injection H as <-. cbn. eapply IH; eauto.
Qed.

Lemma setitem_some l i v x :
  nth_error l i = Some x -> exists l', setitem l i v = Some l'.
Proof.
  revert i. induction l as [| h t IH]; intros [| j] H; cbn in *;
    try discriminate.
  - eauto.
  - destruct (IH j H) as [l' ->]. cbn. eauto.
Qed.

End SetItem.

Ltac case_iteration :=
  unfold log_sound_iteration, handler, calculate_device_stats, bind;
  repeat match goal with
         | |- context [match ?x with _ => _ end] =>
             lazymatch x with
             | context [match _ with _ => _ end] => fail
             | _ => destruct x eqn:?
             end
         end.

Section CaptureFacts.
Variable sqrt64 : Q -> Q.

Lemma iteration_quit_flag index r st :
  quit_flag (fst (log_sound_iteration sqrt64 index r st)) = quit_flag st.
Proof. case_iteration; reflexivity. Qed.

Lemma step_quit_flag st o :
  quit_flag st = true -> quit_flag (step sqrt64 st o) = true.
Proof.
  intros H. destruct o as [| index r |]; cbn.
  - reflexivity.
  - destruct (in_loop index st); [| exact H].
    now rewrite iteration_quit_flag.
  - destruct (periodic_tasks_total st) as (m & _ & ->). exact H.
Qed.

Lemma run_quit_flag ops :
  forall st, quit_flag st = true -> quit_flag (run sqrt64 ops st) = true.
Proof.
  induction ops as [| o ops IH]; intros st H; cbn; [exact H |].
  apply IH, step_quit_flag, H.
Qed.



End CaptureFacts.

(** ** Loudness of a frame *)

(** The empty frame is not given loudness zero: [np.mean] of an empty array
    is NaN. *)
Lemma empty_frame_is_not_zero :
  ~ (exists v, volume sqrt_floor [] = Ok v /\ feq v (Fin 0)).
Proof.
  intros (v & Hv & Hz). cbv in Hv. injection Hv as <-. exact Hz.
Qed.

Lemma frombuffer_even (data : list byte) :
  Nat.even (length data) = true -> frombuffer data = Ok (int16_pairs data).
Proof. intros H. unfold frombuffer. now rewrite H. Qed.

Lemma frombuffer_odd (data : list byte) :
  Nat.even (length data) = false -> frombuffer data = Raise ValueError.
Proof. intros H. unfold frombuffer. now rewrite H. Qed.

(** C6, amended. The loudness computation returns a value, without
    raising, for every frame with an even number of bytes; for the empty
    frame that value is NaN, not zero.  A frame with an odd number of bytes
    makes [np.frombuffer] raise ValueError, and the capture loop's handler
    then prints the error and leaves the loop. *)
Theorem loudness_of_frames (sqrt64 : Q -> Q) :
  (forall data, Nat.even (length data) = true ->
                exists v, volume sqrt64 data = Ok v)
  /\ volume sqrt64 [] = Ok NaN
  /\ (forall data, Nat.even (length data) = false ->
                   volume sqrt64 data = Raise ValueError
                   /\ forall index st,
                       log_sound_iteration sqrt64 index (Frame data) st
                       = handler index ValueError st).
Proof.
  split; [| split].
  - intros data H. unfold volume. rewrite (frombuffer_even data H). cbn. eauto.
  - reflexivity.
  - intros data H.
    assert (Hv : volume sqrt64 data = Raise ValueError).
    { unfold volume. now rewrite (frombuffer_odd data H). }
    split; [exact Hv |]. intros index st.
    unfold log_sound_iteration. now rewrite (frombuffer_odd data H).
Qed.

Lemma loudness_of_frames_witness :
  (exists v, volume sqrt_floor [x03; x00] = Ok v)
  /\ volume sqrt_floor [x03] = Raise ValueError.
Proof.
  split.
  - apply (proj1 (loudness_of_frames sqrt_floor) [x03; x00]). reflexivity.
  - apply (proj2 (proj2 (loudness_of_frames sqrt_floor)) [x03]). reflexivity.
Defined.

(** C7, at the failing input. A frame with the single sample 200 (bytes
    [c8 00]): its square 40000 does not fit an int16 and wraps to -25536, the
    mean is negative and the loudness is NaN, not the root-mean-square 200.
    A frame with the single sample 256 (bytes [00 01]) has its square wrap
    to 0, so its loudness is the square root of 0. *)
Theorem loudness_wraps_in_int16 (sqrt64 : Q -> Q) :
  frombuffer [xc8; x00] = Ok [200%Z]
  /\ int16_square [200%Z] = [(-25536)%Z]
  /\ volume sqrt64 [xc8; x00] = Ok NaN
  /\ frombuffer [x00; x01] = Ok [256%Z]
  /\ volume sqrt64 [x00; x01] = Ok (Fin (sqrt64 0)).
Proof. repeat split; reflexivity. Qed.

(** Every wrapped square is an int16 again, negative ones included. *)
Lemma wrap16_range (z : Z) : (-32768 <= wrap16 z <= 32767)%Z.
Proof. unfold wrap16. pose proof (Z.mod_pos_bound (z + 32768) 65536). lia. Qed.

Lemma total_of_int (zs : list Z) :
  feq (total (map of_int zs)) (Fin (inject_Z (fold_right Z.add 0%Z zs))).
Proof.
  induction zs as [| z zs IH]; [reflexivity |].
  cbn [map fold_right]. change (total (?a :: ?r)) with (fadd a (total r)).
  rewrite IH. cbn. now rewrite inject_Z_plus.
Qed.

Lemma sum_int16_square_bounds (signal : list Z) :
  (- 32768 * Z.of_nat (length signal)
   <= fold_right Z.add 0 (int16_square signal)
   <= 32767 * Z.of_nat (length signal))%Z.
Proof.
  induction signal as [| x l IH]; [cbn; lia |].
  cbn [int16_square map fold_right length]. fold (int16_square l).
  pose proof (wrap16_range (x * x)). lia.
Qed.

Lemma length_int16_square (signal : list Z) :
  length (int16_square signal) = length signal.
Proof. apply length_map. Qed.

Lemma feq_Fin_inv (a : float64) (c : Q) :
  feq a (Fin c) -> exists q, a = Fin q /\ q == c.
Proof. destruct a as [| q]; cbn; [tauto | eauto]. Qed.

Lemma np_mean_int_square_range (signal : list Z) :
  signal <> [] ->
  exists q, np_mean_int (int16_square signal) = Fin q /\ - (32768) <= q <= 32767.
Proof.
  intros Hne. unfold np_mean_int.
  pose proof (np_mean_total (map of_int (int16_square signal))) as Hm.
  rewrite total_of_int, length_map, length_int16_square in Hm.
  pose proof (sum_int16_square_bounds signal) as Hb.
  destruct signal as [| x l]; [congruence |].
  set (n := length (x :: l)) in *. 
  assert (Hn : (0 < Z.of_nat n)%Z) by (subst n; cbn [length]; lia).
  destruct n as [| k] eqn:En; [lia |]. cbn [fdiv_count] in Hm.
  apply feq_Fin_inv in Hm. destruct Hm as (q & -> & Hq).
  exists q. split; [reflexivity |]. rewrite Hq.
  set (S := fold_right Z.add 0%Z (int16_square (x :: l))) in *.
  set (m := Z.of_nat (Datatypes.S k)) in *.
  assert (Hm0 : 0 < inject_Z m) by (change 0 with (inject_Z 0); now rewrite <- Zlt_Qlt).
  split.
  - apply Qle_shift_div_l; [exact Hm0 |].
    change (- (32768)) with (inject_Z (-32768)). rewrite <- inject_Z_mult, <- Zle_Qle. lia.
  - apply Qle_shift_div_r; [exact Hm0 |].
    change 32767 with (inject_Z 32767). rewrite <- inject_Z_mult, <- Zle_Qle. lia.
Qed.

(** X16. Whenever the loudness computation returns, the value is NaN or
    the square root of a mean of wrapped squares, a radicand between 0 and
    32767. *)
Lemma volume_range (sqrt64 : Q -> Q) (data : list byte) (v : float64) :
  volume sqrt64 data = Ok v ->
  v = NaN \/ exists q, v = Fin (sqrt64 q) /\ 0 <= q <= 32767.
Proof.
  unfold volume. destruct (frombuffer data) as [signal | e]; cbn [bind];
    [| discriminate].
  intros H. injection H as <-.
  destruct signal as [| x l]; [now left |].
  destruct (@np_mean_int_square_range (x :: l)) as (q & -> & Hlo & Hhi);
    [discriminate |].
  cbn [np_sqrt]. destruct (Qlt_bool q 0) eqn:E; [now left | right].
  exists q. repeat split; try assumption.
  apply Qnot_lt_le. intros Hlt. apply Qlt_bool_iff in Hlt. congruence.
Qed.

(** ** Shutdown *)

(** C8. Calling [exit_method] a second time changes nothing: the state is
    the one after the first call, with the flag set.  Once the flag is set no
    interleaving of quit signals, capture iterations and periodic tasks
    clears it. *)
Theorem shutdown_idempotent (sqrt64 : Q -> Q) (st : state) :
  exit_method (exit_method st) = exit_method st
  /\ run sqrt64 [ExitMethod; ExitMethod] st = run sqrt64 [ExitMethod] st
  /\ quit_flag (exit_method st) = true
  /\ (forall ops, quit_flag st = true -> quit_flag (run sqrt64 ops st) = true).
Proof.
  repeat split. intros ops H. now apply run_quit_flag.
Qed.

Lemma shutdown_idempotent_witness :
  quit_flag (exit_method (initial 1)) = true
  /\ quit_flag
       (run sqrt_floor [LogSound 0 (Frame [x03; x00]); PeriodicTasks; ExitMethod]
            (exit_method (initial 1))) = true.
Proof.
  split; [reflexivity |].
  apply (proj2 (proj2 (proj2 (shutdown_idempotent sqrt_floor (exit_method (initial 1)))))).
  reflexivity.
Defined.

(** * Part III: the rest of the program *)

Unset Implicit Arguments.

(** ** Start-up *)

Lemma startup_iteration_skip i d g :
  is_input d = false -> startup_iteration i d g = (g, None).
Proof. intros H. unfold startup_iteration. now rewrite H. Qed.

Lemma startup_iteration_aligned i d g :
  is_input d = true ->
  length (labels g) = i -> length (plots g) = i -> length (threads g) = i ->
  startup_iteration i d g
  = (mkGlobals (labels g ++ [i]) (g_buffer g ++ [[]]) (plots g ++ [i])
               (threads g ++ [i]) (started g ++ [i]), None).
Proof.
  intros Hd Hl Hp Ht. unfold startup_iteration. rewrite Hd. cbn.
  rewrite !nth_error_app2 by lia. rewrite Hl, Hp, Ht, Nat.sub_diag. reflexivity.
Qed.

Lemma startup_iteration_behind i d g :
  is_input d = true -> (length (labels g) < i)%nat ->
  snd (startup_iteration i d g) = Some IndexError.
Proof.
  intros Hd Hl. unfold startup_iteration. rewrite Hd. cbn.
  assert (E : nth_error (labels g ++ [i]) i = None).
  { apply nth_error_None. rewrite length_app. cbn. lia. }
  now rewrite E.
Qed.

Lemma startup_from_behind devices :
  forall i g,
    (length (labels g) < i)%nat ->
    snd (startup_from i devices g) = None
    <-> forallb negb (map is_input devices) = true.
Proof.
  induction devices as [| d rest IH]; intros i g Hl; cbn [startup_from map forallb].
  - split; reflexivity.
  - destruct (is_input d) eqn:Hd; cbn [negb andb].
    + pose proof (startup_iteration_behind i d g Hd Hl) as He.
      destruct (startup_iteration i d g) as [g' [e |]]; cbn in *;
        split; intros; congruence.
    + rewrite (startup_iteration_skip i d g Hd). apply IH. lia.
Qed.

Lemma startup_from_aligned devices :
  forall i g,
    length (labels g) = i -> length (plots g) = i -> length (threads g) = i ->
    snd (startup_from i devices g) = None
    <-> inputs_first (map is_input devices) = true.
Proof.
  induction devices as [| d rest IH]; intros i g Hl Hp Ht;
    cbn [startup_from map inputs_first].
  - split; reflexivity.
  - destruct (is_input d) eqn:Hd.
    + rewrite (startup_iteration_aligned i d g Hd Hl Hp Ht).
      apply IH; cbn; rewrite length_app; cbn; lia.
    + rewrite (startup_iteration_skip i d g Hd).
      apply startup_from_behind. lia.
Qed.

Lemma forallb_negb_repeat (l : list bool) :
  forallb negb l = true <-> l = repeat false (length l).
Proof.
  induction l as [| [|] l IH]; cbn.
  - split; reflexivity.
  - split; discriminate.
  - rewrite IH. split; [intros <-; reflexivity | intros E; now injection E].
Qed.

Lemma inputs_first_iff (l : list bool) :
  inputs_first l = true
  <-> exists k, l = repeat true k ++ repeat false (length l - k).
Proof.
  induction l as [| [|] l IH]; cbn [inputs_first length].
  - split; [exists 0%nat; reflexivity | reflexivity].
  - rewrite IH. split.
    + intros [k Hk]. exists (S k). cbn. now rewrite <- Hk.
    + intros [[| k] Hk]; cbn in Hk; [discriminate |].
      injection Hk as Hk. eauto.
  - rewrite forallb_negb_repeat. split.
    + intros Hl. exists 0%nat. cbn. now rewrite <- Hl.
    + intros [[| k] Hk]; cbn in Hk; [| discriminate].
      now injection Hk.
Qed.

Lemma startup_from_inputs_first k :
  forall devices m i g,
    length (labels g) = i -> length (plots g) = i -> length (threads g) = i ->
    map is_input devices = repeat true k ++ repeat false m ->
    startup_from i devices g
    = (mkGlobals (labels g ++ seq i k) (g_buffer g ++ repeat [] k)
                 (plots g ++ seq i k) (threads g ++ seq i k)
                 (started g ++ seq i k), None).
Proof.
  induction k as [| k IH]; intros devices m i g Hl Hp Ht Hm.
  - cbn [repeat seq app] in *. rewrite !app_nil_r.
    clear Hl Hp Ht. revert i. revert m Hm.
    induction devices as [| d rest IHd]; intros m Hm i; cbn [startup_from].
    + now destruct g.
    + destruct m as [| m]; [discriminate |]. cbn in Hm. injection Hm as Hd Hm.
      rewrite (startup_iteration_skip i d g Hd). eauto.
  - destruct devices as [| d rest]; [discriminate |].
    cbn in Hm. injection Hm as Hd Hm. cbn [startup_from].
    rewrite (startup_iteration_aligned i d g Hd Hl Hp Ht).
    rewrite (IH rest m (S i)); cbn; try (rewrite length_app; cbn; lia);
      [| exact Hm].
    now rewrite <- !app_assoc.
Qed.

(** X1. The start-up loop runs through without an exception exactly when
    the input devices come first in the enumeration; an input device that
    follows a device without input makes [labels[i]] raise IndexError.  When
    it runs through with [k] input devices there are [k] empty buffers and the
    threads started are those for the indices [0 .. k-1], each once. *)
Theorem startup_needs_inputs_first (devices : list device_info) :
  (snd (startup devices) = None
   <-> exists k,
        map is_input devices = repeat true k ++ repeat false (length devices - k))
  /\ (forall k m,
         map is_input devices = repeat true k ++ repeat false m ->
         startup devices
         = (mkGlobals (seq 0 k) (repeat [] k) (seq 0 k) (seq 0 k) (seq 0 k), None)).
Proof.
  split.
  - unfold startup. rewrite startup_from_aligned by reflexivity.
    rewrite inputs_first_iff, length_map. reflexivity.
  - intros k m H. unfold startup.
    now rewrite (startup_from_inputs_first k devices m 0%nat no_globals).
Qed.

Lemma startup_needs_inputs_first_witness :
  startup [mkDevice String.EmptyString 2; mkDevice String.EmptyString 1;
           mkDevice String.EmptyString 0]
  = (mkGlobals [0; 1]%nat [[]; []] [0; 1]%nat [0; 1]%nat [0; 1]%nat, None).
Proof.
  apply (proj2 (startup_needs_inputs_first
                  [mkDevice String.EmptyString 2; mkDevice String.EmptyString 1;
                   mkDevice String.EmptyString 0]) 2%nat 1%nat).
  reflexivity.
Defined.

Lemma listed_from (devices : list device_info) :
  forall s,
    listed_ids
      (flat_map (fun id => if is_input (snd id)
                           then [InputDeviceId (fst id) (name (snd id))]
                           else [])
                (combine (seq s (length devices)) devices))
    = map fst (filter (fun id => is_input (snd id))
                      (combine (seq s (length devices)) devices)).
Proof.
  induction devices as [| d rest IH]; intros s; cbn; [reflexivity |].
  destruct (is_input d); cbn; now rewrite IH.
Qed.

Lemma inputs_from (devices : list device_info) :
  forall s k m,
    map is_input devices = repeat true k ++ repeat false m ->
    map fst (filter (fun id => is_input (snd id))
                    (combine (seq s (length devices)) devices))
    = seq s k.
Proof.
  induction devices as [| d rest IH]; intros s k m H.
  - destruct k; [reflexivity | discriminate].
  - cbn [length seq combine filter snd]. destruct k as [| k]; cbn in H.
    + destruct m as [| m]; [discriminate |]. injection H as Hd H.
      rewrite Hd. now apply (IH (S s) 0%nat m).
    + injection H as Hd H. rewrite Hd. cbn. f_equal. now apply (IH (S s) k m).
Qed.

(** X2. [list_audio_devices] names device [i] exactly when it has input
    channels, with its own name; and when the start-up loop runs through, the
    devices it names are, in order, the ones a capture thread is started for. *)
Theorem listing_names_the_input_devices (devices : list device_info) :
  (forall i n,
      In (InputDeviceId i n) (list_audio_devices devices)
      <-> exists d, nth_error devices i = Some d
                    /\ is_input d = true /\ name d = n)
  /\ (snd (startup devices) = None ->
      listed_ids (list_audio_devices devices) = started (fst (startup devices))).
Proof.
  split.
  - intros i n. unfold list_audio_devices. cbn [In]. rewrite in_flat_map. split.
    + intros [E | [[j d] [Hin Hm]]]; [discriminate |].
      apply In_enumerate in Hin. cbn [fst snd] in Hm.
      destruct (is_input d) eqn:Hd; [| contradiction].
      destruct Hm as [E | []]. injection E as -> <-. eauto.
    + intros (d & Hn & Hd & <-). right. exists (i, d).
      rewrite In_enumerate. split; [assumption |]. cbn [fst snd].
      rewrite Hd. now left.
  - intros Hok. unfold startup in Hok.
    rewrite startup_from_aligned in Hok by reflexivity.
    apply inputs_first_iff in Hok. destruct Hok as [k Hk].
    unfold startup.
    rewrite (startup_from_inputs_first k devices _ 0%nat no_globals)
      by (reflexivity || exact Hk).
    cbn [fst started no_globals app].
    unfold list_audio_devices, enumerate. cbn [listed_ids flat_map app].
    fold (listed_ids (flat_map
            (fun id => if is_input (snd id)
                       then [InputDeviceId (fst id) (name (snd id))] else [])
            (combine (seq 0 (length devices)) devices))).
    rewrite listed_from. now apply (inputs_from devices 0%nat k _ Hk).
Qed.

Lemma listing_names_the_input_devices_witness :
  listed_ids (list_audio_devices
                [mkDevice String.EmptyString 2; mkDevice String.EmptyString 0])
  = started (fst (startup
                    [mkDevice String.EmptyString 2; mkDevice String.EmptyString 0])).
Proof.
  apply (proj2 (listing_names_the_input_devices
                  [mkDevice String.EmptyString 2; mkDevice String.EmptyString 0])).
  reflexivity.
Defined.

(** ** One capture iteration, case by case *)

Lemma pairs_ind (P : list byte -> Prop) :
  P [] -> (forall x, P [x]) -> (forall lo hi l, P l -> P (lo :: hi :: l)) ->
  forall l, P l.
Proof.
  intros H0 H1 H2 l.
  assert (H : P l /\ forall x, P (x :: l)).
  { induction l as [| y l [IH1 IH2]]; [split; auto |].
    split; [apply IH2 | intros x; now apply H2]. }
  apply H.
Qed.

Lemma length_int16_pairs (data : list byte) :
  length (int16_pairs data) = Nat.div2 (length data).
Proof.
  induction data as [| x | lo hi l IH] using pairs_ind; cbn [int16_pairs length];
    try reflexivity.
  cbn [Nat.div2]. now rewrite IH.
Qed.

(** The frames the stream delivers, [CHUNK] samples of two bytes, decode and
    are accepted by the plot; so are frames of one sample. *)
Lemma frame_accepted (data : list byte) :
  length data = (2 * CHUNK)%nat \/ length data = 2%nat ->
  exists signal, frombuffer data = Ok signal /\ update_plot signal = Ok tt.
Proof.
  intros H. exists (int16_pairs data). unfold frombuffer, update_plot.
  rewrite length_int16_pairs.
  destruct H as [-> | ->]; split; reflexivity.
Qed.


Lemma push_has_data (b : list float64) (v : float64) : has_data (push b v) = true.
Proof.
  unfold has_data, push, push_limit, append, BUFFER_LIMIT.
  apply Nat.ltb_lt.
  destruct (Nat.ltb_spec 100 (length (b ++ [v]))) as [Hlt | Hge].
  - cbn [py_last]. rewrite length_skipn. lia.
  - rewrite length_app. cbn. lia.
Qed.

Lemma push_from_bounded (b : list float64) (vs : list float64) :
  (length b <= BUFFER_LIMIT)%nat ->
  fold_left push vs b = most_recent BUFFER_LIMIT (b ++ vs).
Proof.
  intros Hb. rewrite <- (most_recent_short (k := BUFFER_LIMIT) b Hb) at 1.
  apply fold_push_most_recent. unfold BUFFER_LIMIT. lia.
Qed.

Section IterationCases.
Variable sqrt64 : Q -> Q.

Lemma volume_of_signal data signal :
  frombuffer data = Ok signal ->
  volume sqrt64 data = Ok (np_sqrt sqrt64 (np_mean_int (int16_square signal))).
Proof. intros H. unfold volume. now rewrite H. Qed.

(** A frame that decodes and that the plot accepts, on a device that has a
    buffer. *)
Lemma iteration_good index data signal st b :
  nth_error (buffer st) index = Some b ->
  frombuffer data = Ok signal ->
  update_plot signal = Ok tt ->
  exists v buffer',
    volume sqrt64 data = Ok v
    /\ setitem (buffer st) index (push b v) = Some buffer'
    /\ log_sound_iteration sqrt64 index (Frame data) st
       = let st3 := print (DeviceStats index (np_mean (push b v)) (np_var (push b v)))
                          (set_buffer buffer' (setText index v st)) in
         if quit_flag st then (leave index StreamClosed st3, Break)
         else (st3, Continue).
Proof.
  intros Hb Hf Hp.
  set (v := np_sqrt sqrt64 (np_mean_int (int16_square signal))).
  destruct (@setitem_some _ _ _ (push b v) _ Hb) as [buffer' Hs].
  exists v, buffer'. split; [now apply volume_of_signal |].
  split; [exact Hs |].
  unfold log_sound_iteration. rewrite Hf, Hp. fold v. cbn [setText buffer].
  rewrite Hb, Hs.
  unfold calculate_device_stats, device_stats_message. cbn [set_buffer buffer].
  rewrite (@setitem_nth_same _ _ _ _ _ Hs), push_has_data. reflexivity.
Qed.

(** Every other way through the body ends in the handler. *)
Lemma iteration_cases index r st :
  (exists data v b buffer',
      r = Frame data /\ volume sqrt64 data = Ok v
      /\ nth_error (buffer st) index = Some b
      /\ setitem (buffer st) index (push b v) = Some buffer'
      /\ log_sound_iteration sqrt64 index r st
         = let st3 := print (DeviceStats index (np_mean (push b v)) (np_var (push b v)))
                            (set_buffer buffer' (setText index v st)) in
           if quit_flag st then (leave index StreamClosed st3, Break)
           else (st3, Continue))
  \/ (exists e st0,
         log_sound_iteration sqrt64 index r st = handler index e st0
         /\ buffer st0 = buffer st /\ stdout st0 = stdout st
         /\ exits st0 = exits st /\ quit_flag st0 = quit_flag st).
Proof.
  destruct r as [data | e].
  - destruct (frombuffer data) as [signal | e] eqn:Hf.
    + destruct (update_plot signal) as [[] | e] eqn:Hp.
      * destruct (nth_error (buffer st) index) as [b |] eqn:Hb.
        -- left.
           destruct (iteration_good index data signal st b Hb Hf Hp)
             as (v & l' & Hv & Hs & E).
           exists data, v, b, l'. repeat split; assumption.
        -- right.
           exists IndexError,
             (setText index (np_sqrt sqrt64 (np_mean_int (int16_square signal))) st).
           unfold log_sound_iteration. rewrite Hf, Hp. cbn [setText buffer].
           rewrite Hb. repeat split.
      * right.
        exists e, (setText index (np_sqrt sqrt64 (np_mean_int (int16_square signal))) st).
        unfold log_sound_iteration. rewrite Hf, Hp. repeat split.
    + right. exists e, st. unfold log_sound_iteration. rewrite Hf. repeat split.
  - right. exists e, st. repeat split.
Qed.

Lemma iteration_other_buffers index r st j :
  j <> index ->
  nth_error (buffer (fst (log_sound_iteration sqrt64 index r st))) j
  = nth_error (buffer st) j.
Proof.
  intros Hne.
  destruct (iteration_cases index r st)
    as [(data & v & b & l' & -> & Hv & Hb & Hs & ->) | (e & st0 & -> & Hb & _)].
  - cbv zeta. destruct (quit_flag st); cbn;
      apply (@setitem_nth_other _ _ _ _ _ j Hs); congruence.
  - cbn. now rewrite Hb.
Qed.

Lemma iteration_buffer_count index r st :
  length (buffer (fst (log_sound_iteration sqrt64 index r st)))
  = length (buffer st).
Proof.
  destruct (iteration_cases index r st)
    as [(data & v & b & l' & -> & Hv & Hb & Hs & ->) | (e & st0 & -> & Hb & _)].
  - cbv zeta. assert (Hl : length l' = length (buffer st)).
    { clear - Hs. revert index l' Hs.
      induction (buffer st) as [| h t IH]; intros [| i] l' H; cbn in H;
        try discriminate.
      - injection H as <-. reflexivity.
      - destruct (setitem t i (push b v)) eqn:E; cbn in H; [| discriminate].
        injection H as <-. cbn. f_equal. eauto. }
    destruct (quit_flag st); cbn; exact Hl.
  - cbn. now rewrite Hb.
Qed.

Lemma iteration_stdout index r st :
  exists m,
    stdout (fst (log_sound_iteration sqrt64 index r st)) = stdout st ++ [m].
Proof.
  destruct (iteration_cases index r st)
    as [(data & v & b & l' & -> & Hv & Hb & Hs & ->)
       | (e & st0 & -> & _ & Ho & _)].
  - cbv zeta. destruct (quit_flag st); cbn; eauto.
  - cbn. rewrite Ho. eauto.
Qed.

Lemma iteration_exits index r st :
  exits (fst (log_sound_iteration sqrt64 index r st)) = exits st
  \/ exists k, exits (fst (log_sound_iteration sqrt64 index r st))
               = exits st ++ [(index, k)].
Proof.
  destruct (iteration_cases index r st)
    as [(data & v & b & l' & -> & Hv & Hb & Hs & ->)
       | (e & st0 & -> & _ & _ & He & _)].
  - cbv zeta. destruct (quit_flag st); cbn; eauto.
  - cbn. rewrite He. eauto.
Qed.

End IterationCases.

(** ** The capture loop over many reads *)

Section LoopFacts.
Variable sqrt64 : Q -> Q.

Lemma log_sound_frames index frames :
  forall st b,
    nth_error (buffer st) index = Some b ->
    quit_flag st = false ->
    Forall (fun d => length d = (2 * CHUNK)%nat \/ length d = 2%nat) frames ->
    exists vs,
      Forall2 (fun d v => volume sqrt64 d = Ok v) frames vs
      /\ snd (log_sound sqrt64 index (map Frame frames) st) = Continue
      /\ nth_error (buffer (fst (log_sound sqrt64 index (map Frame frames) st))) index
         = Some (fold_left push vs b)
      /\ label_text (fst (log_sound sqrt64 index (map Frame frames) st))
         = label_text st ++ map (pair index) vs
      /\ length (stdout (fst (log_sound sqrt64 index (map Frame frames) st)))
         = (length (stdout st) + length frames)%nat.
Proof.
  induction frames as [| d frames IH]; intros st b Hb Hq Hall.
  - exists []. cbn. rewrite app_nil_r, Nat.add_0_r. repeat split; auto.
  - inversion Hall as [| ? ? Hd Hrest]; subst.
    destruct (frame_accepted d Hd) as (signal & Hf & Hp).
    destruct (iteration_good sqrt64 index d signal st b Hb Hf Hp)
      as (v & l' & Hv & Hs & E).
    rewrite Hq in E. cbv zeta in E.
    cbn [map log_sound]. rewrite E.
    set (st3 := print _ _) in *.
    assert (Hb3 : nth_error (buffer st3) index = Some (push b v))
      by (apply (@setitem_nth_same _ _ _ _ _ Hs)).
    destruct (IH st3 (push b v) Hb3 Hq Hrest) as (vs & Hvs & Hc & Hn & Hl & Ho).
    exists (v :: vs). repeat split.
    + now constructor.
    + exact Hc.
    + exact Hn.
    + rewrite Hl. subst st3. cbn. now rewrite <- app_assoc.
    + rewrite Ho. subst st3. cbn. rewrite length_app. cbn. lia.
Qed.

(** X3. While the quit flag is clear, a capture loop that reads the
    frames its stream delivers ([CHUNK] samples of two bytes; a frame of one
    sample passes the plot too) keeps running: it computes a volume for each
    frame, and afterwards the buffer of its device holds the latest 100 of
    the old samples and the new volumes, in order; it has set the label and
    printed one line for each frame. *)
Theorem log_sound_keeps_latest index frames st b :
  nth_error (buffer st) index = Some b ->
  (length b <= BUFFER_LIMIT)%nat ->
  quit_flag st = false ->
  Forall (fun d => length d = (2 * CHUNK)%nat \/ length d = 2%nat) frames ->
  exists vs,
    Forall2 (fun d v => volume sqrt64 d = Ok v) frames vs
    /\ snd (log_sound sqrt64 index (map Frame frames) st) = Continue
    /\ nth_error (buffer (fst (log_sound sqrt64 index (map Frame frames) st))) index
       = Some (most_recent BUFFER_LIMIT (b ++ vs))
    /\ label_text (fst (log_sound sqrt64 index (map Frame frames) st))
       = label_text st ++ map (pair index) vs
    /\ length (stdout (fst (log_sound sqrt64 index (map Frame frames) st)))
       = (length (stdout st) + length frames)%nat.
Proof.
  intros Hb Hlen Hq Hall.
  destruct (log_sound_frames index frames st b Hb Hq Hall)
    as (vs & Hvs & Hc & Hn & Hl & Ho).
  exists vs. rewrite <- (push_from_bounded b vs Hlen). repeat split; assumption.
Qed.

(** X5. Once the quit flag is set, a capture loop handles exactly one
    more read, whatever it is, and then leaves: the reads that follow are
    never made. *)
Theorem quit_ends_loop_after_one_read index r rest st :
  quit_flag st = true ->
  snd (log_sound_iteration sqrt64 index r st) = Break
  /\ log_sound sqrt64 index (r :: rest) st = log_sound_iteration sqrt64 index r st.
Proof.
  intros Hq.
  assert (Hb : snd (log_sound_iteration sqrt64 index r st) = Break).
  { destruct (iteration_cases sqrt64 index r st)
      as [(data & v & b & l' & -> & Hv & Hb & Hs & ->) | (e & st0 & -> & _)].
    - cbv zeta. now rewrite Hq.
    - reflexivity. }
  split; [exact Hb |]. cbn [log_sound].
  destruct (log_sound_iteration sqrt64 index r st) as [st' c]. cbn in Hb.
  now subst c.
Qed.

(** X6. A capture loop ends in one of two ways only.  Either the quit
    flag was set and the frame was still handled: its volume is in the buffer
    and the stream is closed.  Or an exception was caught: the error line is
    printed, the buffers are as before, and the stream is left open. *)
Theorem loop_ends_on_quit_or_error index r st :
  snd (log_sound_iteration sqrt64 index r st) = Break ->
  (quit_flag st = true
   /\ exits (fst (log_sound_iteration sqrt64 index r st))
      = exits st ++ [(index, StreamClosed)]
   /\ exists b v,
       nth_error (buffer st) index = Some b
       /\ nth_error (buffer (fst (log_sound_iteration sqrt64 index r st))) index
          = Some (push b v))
  \/ (exists e,
         stdout (fst (log_sound_iteration sqrt64 index r st))
         = stdout st ++ [ErrorWithDevice index e]
         /\ exits (fst (log_sound_iteration sqrt64 index r st))
            = exits st ++ [(index, StreamLeftOpen)]
         /\ buffer (fst (log_sound_iteration sqrt64 index r st)) = buffer st).
Proof.
  destruct (iteration_cases sqrt64 index r st)
    as [(data & v & b & l' & -> & Hv & Hb & Hs & ->)
       | (e & st0 & -> & Hb & Ho & He & _)].
  - cbv zeta. destruct (quit_flag st) eqn:Hq; cbn; [| discriminate].
    intros _. left. repeat split. exists b, v. split; [exact Hb |].
    apply (@setitem_nth_same _ _ _ _ _ Hs).
  - intros _. right. exists e. cbn. rewrite Hb, Ho, He. repeat split.
Qed.

Lemma step_buffer_count st o :
  length (buffer (step sqrt64 st o)) = length (buffer st).
Proof.
  destruct o as [| index r |]; cbn.
  - reflexivity.
  - destruct (in_loop index st); [apply iteration_buffer_count | reflexivity].
  - destruct (periodic_tasks_total st) as (m & _ & ->). reflexivity.
Qed.

Lemma step_other_buffers st o j :
  (forall r, o <> LogSound j r) ->
  nth_error (buffer (step sqrt64 st o)) j = nth_error (buffer st) j.
Proof.
  intros Hne. destruct o as [| index r |]; cbn.
  - reflexivity.
  - destruct (in_loop index st); [| reflexivity].
    apply iteration_other_buffers. intros ->. now apply (Hne r).
  - destruct (periodic_tasks_total st) as (m & _ & ->). reflexivity.
Qed.

(** X4. The number of buffers never changes, and the buffer of device
    [j] is written by the capture iterations of device [j] alone: any
    interleaving without them (other devices' frames and failures, periodic
    tasks, quit signals) leaves it as it was. *)
Theorem buffer_written_by_own_thread_only ops :
  forall st j,
    length (buffer (run sqrt64 ops st)) = length (buffer st)
    /\ ((forall r, ~ In (LogSound j r) ops) ->
        nth_error (buffer (run sqrt64 ops st)) j = nth_error (buffer st) j).
Proof.
  induction ops as [| o ops IH]; intros st j; cbn [run fold_left].
  - split; reflexivity.
  - destruct (IH (step sqrt64 st o) j) as [Hlen Hsame]. split.
    + unfold run in Hlen. rewrite Hlen. apply step_buffer_count.
    + intros Hno. unfold run in Hsame. rewrite Hsame.
      * apply step_other_buffers. intros r ->. apply (Hno r). now left.
      * intros r Hin. apply (Hno r). now right.
Qed.

Lemma step_left_loop st o index :
  in_loop index st = false ->
  in_loop index (step sqrt64 st o) = false
  /\ nth_error (buffer (step sqrt64 st o)) index = nth_error (buffer st) index.
Proof.
  intros Hout. destruct o as [| j r |]; cbn.
  - split; [exact Hout | reflexivity].
  - destruct (in_loop j st) eqn:Hj; [| split; [exact Hout | reflexivity]].
    assert (Hne : index <> j) by (intros ->; congruence).
    split; [| now apply iteration_other_buffers].
    unfold in_loop in *. apply negb_false_iff in Hout. apply negb_false_iff.
    destruct (iteration_exits sqrt64 j r st) as [-> | [k ->]];
      [exact Hout |].
    rewrite existsb_app, Hout. reflexivity.
  - destruct (periodic_tasks_total st) as (m & _ & ->).
    split; [exact Hout | reflexivity].
Qed.

(** X18. A capture thread that has left its loop never comes back, and
    the buffer of its device stays as it was at that moment through every
    later interleaving: the periodic task goes on computing from the samples
    the device had when it stopped. *)
Theorem left_loop_freezes_buffer ops :
  forall st index,
    in_loop index st = false ->
    in_loop index (run sqrt64 ops st) = false
    /\ nth_error (buffer (run sqrt64 ops st)) index = nth_error (buffer st) index.
Proof.
  induction ops as [| o ops IH]; intros st index Hout; cbn [run fold_left].
  - split; [exact Hout | reflexivity].
  - destruct (step_left_loop st o index Hout) as [Hout' Hsame].
    destruct (IH (step sqrt64 st o) index Hout') as [H1 H2].
    unfold run in *. split; [exact H1 | now rewrite H2].
Qed.

End LoopFacts.

(** ** Reads that fail *)

Lemma stream_read_overflow (pa : pa_read) :
  pa_err pa = paInputOverflowed -> stream_read false pa = Frame (pa_data pa).
Proof. intros H. unfold stream_read. rewrite H. reflexivity. Qed.

Lemma stream_read_error (pa : pa_read) :
  pa_err pa <> paNoError -> pa_err pa <> paInputOverflowed ->
  pa_err pa <> paOutputUnderflowed ->
  stream_read false pa = ReadError (OSError (pa_err pa)).
Proof.
  intros H0 H1 H2. unfold stream_read.
  destruct (Z.eqb_spec (pa_err pa) paNoError); [contradiction |].
  destruct (Z.eqb_spec (pa_err pa) paInputOverflowed); [contradiction |].
  destruct (Z.eqb_spec (pa_err pa) paOutputUnderflowed); [contradiction |].
  reflexivity.
Qed.

(** A read that times out (PortAudio's [paTimedOut], -9987) is raised, and
    the capture loop does not survive it: the iteration ends with [Break],
    and the good frame that follows is never read, so the buffer stays
    empty. *)
Lemma timed_out_read_breaks_loop :
  snd (log_sound_iteration sqrt_floor 0 (stream_read false (mkPaRead (-9987) []))
         (initial 1))
  <> Continue
  /\ buffer
       (fst (log_sound sqrt_floor 0
               [stream_read false (mkPaRead (-9987) []); Frame [x03; x00]]
               (initial 1)))
     = [[]].
Proof. split; [discriminate | reflexivity]. Qed.

(** C5, amended. A read that overflows the input buffer does not fail: read
    with [exception_on_overflow=False] it returns its frame, which is handled
    like any other, so with the quit flag clear the loop goes on, the volume
    is pushed and the line printed is the device's statistics, not an error.
    Every other error of the read is raised: the handler prints it for the
    device and leaves the loop, whatever the error, so that no later read of
    that device is made, the buffers keep their contents and the thread is
    out of its loop. *)
Theorem read_overflow_is_tolerated_other_errors_end_loop
  (sqrt64 : Q -> Q) (index : nat) (pa : pa_read) (st : state) :
  (pa_err pa = paInputOverflowed ->
   log_sound_iteration sqrt64 index (stream_read false pa) st
   = log_sound_iteration sqrt64 index (Frame (pa_data pa)) st
   /\ forall b,
       length (pa_data pa) = (2 * CHUNK)%nat \/ length (pa_data pa) = 2%nat ->
       nth_error (buffer st) index = Some b ->
       quit_flag st = false ->
       exists v,
         volume sqrt64 (pa_data pa) = Ok v
         /\ snd (log_sound_iteration sqrt64 index (stream_read false pa) st) = Continue
         /\ nth_error
              (buffer (fst (log_sound_iteration sqrt64 index (stream_read false pa) st)))
              index
            = Some (push b v)
         /\ stdout (fst (log_sound_iteration sqrt64 index (stream_read false pa) st))
            = stdout st
                ++ [DeviceStats index (np_mean (push b v)) (np_var (push b v))])
  /\ (pa_err pa <> paNoError -> pa_err pa <> paInputOverflowed ->
      pa_err pa <> paOutputUnderflowed ->
      log_sound_iteration sqrt64 index (stream_read false pa) st
      = (leave index StreamLeftOpen
               (print (ErrorWithDevice index (OSError (pa_err pa))) st), Break)
      /\ (forall rest,
             log_sound sqrt64 index (stream_read false pa :: rest) st
             = (leave index StreamLeftOpen
                      (print (ErrorWithDevice index (OSError (pa_err pa))) st), Break))
      /\ stdout (fst (log_sound_iteration sqrt64 index (stream_read false pa) st))
         = stdout st ++ [ErrorWithDevice index (OSError (pa_err pa))]
      /\ buffer (fst (log_sound_iteration sqrt64 index (stream_read false pa) st))
         = buffer st
      /\ in_loop index (fst (log_sound_iteration sqrt64 index (stream_read false pa) st))
         = false).
Proof.
  split.
  - intros Hov. rewrite (stream_read_overflow pa Hov). split; [reflexivity |].
    intros b Hlen Hb Hq.
    destruct (frame_accepted (pa_data pa) Hlen) as (signal & Hf & Hp).
    destruct (iteration_good sqrt64 index (pa_data pa) signal st b Hb Hf Hp)
      as (v & l' & Hv & Hs & E).
    rewrite Hq in E. cbv zeta in E. rewrite E.
    exists v. split; [exact Hv |]. split; [reflexivity |].
    split; [apply (@setitem_nth_same _ _ _ _ _ Hs) | reflexivity].
  - intros H0 H1 H2. rewrite (stream_read_error pa H0 H1 H2).
    repeat split; try reflexivity.
    cbn. unfold in_loop. cbn. rewrite negb_false_iff, existsb_app. cbn.
    now rewrite Nat.eqb_refl, orb_true_r.
Qed.

Lemma read_overflow_is_tolerated_other_errors_end_loop_witness :
  (exists v,
      volume sqrt_floor [x03; x00] = Ok v
      /\ snd (log_sound_iteration sqrt_floor 0
                (stream_read false (mkPaRead paInputOverflowed [x03; x00]))
                (initial 1)) = Continue
      /\ nth_error
           (buffer (fst (log_sound_iteration sqrt_floor 0
                           (stream_read false (mkPaRead paInputOverflowed [x03; x00]))
                           (initial 1)))) 0
         = Some (push [] v)
      /\ stdout (fst (log_sound_iteration sqrt_floor 0
                        (stream_read false (mkPaRead paInputOverflowed [x03; x00]))
                        (initial 1)))
         = stdout (initial 1)
             ++ [DeviceStats 0 (np_mean (push [] v)) (np_var (push [] v))])
  /\ log_sound_iteration sqrt_floor 0 (stream_read false (mkPaRead (-9987) []))
       (initial 1)
     = (leave 0 StreamLeftOpen
              (print (ErrorWithDevice 0 (OSError (-9987))) (initial 1)), Break).
Proof.
  split.
  - apply (proj2 (proj1 (read_overflow_is_tolerated_other_errors_end_loop
                           sqrt_floor 0 (mkPaRead paInputOverflowed [x03; x00])
                           (initial 1))
                     eq_refl) []).
    + right. reflexivity.
    + reflexivity.
    + reflexivity.
  - apply (proj2 (read_overflow_is_tolerated_other_errors_end_loop
                    sqrt_floor 0 (mkPaRead (-9987) []) (initial 1))).
    + discriminate.
    + discriminate.
    + discriminate.
Defined.

(** ** Sample counts *)

Lemma count_pos (n : nat) : 0 < inject_Z (Z.of_nat (S n)).
Proof. change 0 with (inject_Z 0). rewrite <- Zlt_Qlt. lia. Qed.

(** ** NaN samples *)

Lemma fold_fadd_nan (l : list float64) : fold_left fadd l NaN = NaN.
Proof. induction l as [| x l IH]; [reflexivity | exact IH]. Qed.

Lemma fold_fadd_In_nan (l : list float64) :
  In NaN l -> forall a, fold_left fadd l a = NaN.
Proof.
  induction l as [| x l IH]; intros Hin a; [contradiction |].
  cbn [fold_left]. destruct Hin as [-> | Hin].
  - destruct a; cbn; apply fold_fadd_nan.
  - now apply IH.
Qed.

Lemma np_mean_In_nan (l : list float64) : In NaN l -> np_mean l = NaN.
Proof.
  intros Hin. unfold np_mean, np_sum. now rewrite (fold_fadd_In_nan l Hin).
Qed.

Lemma np_var_In_nan (l : list float64) : In NaN l -> np_var l = NaN.
Proof.
  intros Hin. unfold np_var. rewrite (np_mean_In_nan l Hin).
  apply np_mean_In_nan. apply in_map_iff. exists NaN. split; [reflexivity | exact Hin].
Qed.

(** X10. One NaN sample hides a device and spoils the combined figures:
    while the NaN is in its buffer the device is flagged neither faulty nor
    "no data", whatever the threshold, and the combined mean and variance are
    both NaN. *)
Theorem nan_sample_hides_device (threshold : float64)
  (buffer : list (list float64)) (i : nat) (b : list float64) :
  nth_error buffer i = Some b ->
  In NaN b ->
  (forall m, ~ In (MightBeFaulty i m) (detect_messages threshold buffer))
  /\ ~ In (HasNoData i) (detect_messages threshold buffer)
  /\ combined_stats_message buffer = Ok (CombinedStats NaN NaN).
Proof.
  intros Hn Hin.
  assert (Hne : b <> []) by (intros ->; contradiction).
  split; [| split].
  - intros m Hm.
    assert (Hex : exists m', In (MightBeFaulty i m') (detect_messages threshold buffer))
      by eauto.
    apply (faulty_flag_iff threshold _ _ Hn) in Hex. destruct Hex as [_ Hf].
    rewrite (np_mean_In_nan b Hin) in Hf. discriminate.
  - intros Hm. apply (no_data_flag_iff threshold _ _ Hn) in Hm. congruence.
  - rewrite combined_stats_message_cases.
    assert (Hd : has_data b = true) by now apply has_data_true.
    assert (Hb : In b buffer) by (eapply nth_error_In; eauto).
    assert (He : existsb has_data buffer = true)
      by (apply existsb_exists; eauto).
    rewrite He.
    assert (Hc : In NaN (concat (filter has_data buffer))).
    { apply in_concat. exists b. split; [| exact Hin].
      apply filter_In. now split. }
    now rewrite (np_mean_In_nan _ Hc), (np_var_In_nan _ Hc).
Qed.

Lemma nan_sample_hides_device_witness :
  (forall m, ~ In (MightBeFaulty 0 m)
               (detect_messages FAULT_THRESHOLD [[of_int 3; NaN]; [of_int 50]]))
  /\ ~ In (HasNoData 0) (detect_messages FAULT_THRESHOLD [[of_int 3; NaN]; [of_int 50]])
  /\ combined_stats_message [[of_int 3; NaN]; [of_int 50]]
     = Ok (CombinedStats NaN NaN).
Proof.
  apply (nan_sample_hides_device FAULT_THRESHOLD [[of_int 3; NaN]; [of_int 50]]
           0%nat [of_int 3; NaN]).
  - reflexivity.
  - right. left. reflexivity.
Defined.

(** ** The periodic task *)

Lemma flags_in_device_order threshold (l : list (list float64)) :
  forall s,
    exists devices,
      Forall2 (fun i m => (exists mean, m = MightBeFaulty i mean) \/ m = HasNoData i)
              devices
              (flat_map (fault_messages threshold) (combine (seq s (length l)) l))
      /\ StronglySorted lt devices
      /\ Forall (fun i => (s <= i < s + length l)%nat) devices.
Proof.
  induction l as [| b l IH]; intros s; cbn [length seq combine flat_map].
  - exists []. repeat constructor.
  - destruct (IH (S s)) as (devices & Hf & Hs & Hr).
    assert (Hr' : Forall (fun i => (s <= i < s + S (length l))%nat) devices)
      by (eapply Forall_impl; [| exact Hr]; cbn; intros; lia).
    assert (Hlt : Forall (lt s) devices)
      by (eapply Forall_impl; [| exact Hr]; cbn; intros; lia).
    rewrite fault_messages_cases.
    destruct (has_data b); [destruct (flt (np_mean b) threshold) |]; cbn [app].
    + exists (s :: devices). repeat split.
      * constructor; [left; eauto | exact Hf].
      * now constructor.
      * constructor; [lia | exact Hr'].
    + exists devices. repeat split; assumption.
    + exists (s :: devices). repeat split.
      * constructor; [now right | exact Hf].
      * now constructor.
      * constructor; [lia | exact Hr'].
Qed.

(** X8. [detect_faulty_sources] prints at most one line per device, a
    "faulty" or a "no data" line, and the lines come in the order of the
    device positions in [buffer]. *)
Theorem one_flag_per_device_in_order (threshold : float64)
  (buffer : list (list float64)) :
  exists devices,
    Forall2 (fun i m => (exists mean, m = MightBeFaulty i mean) \/ m = HasNoData i)
            devices (detect_messages threshold buffer)
    /\ StronglySorted lt devices
    /\ Forall (fun i => (i < length buffer)%nat) devices.
Proof.
  destruct (flags_in_device_order threshold buffer 0) as (devices & Hf & Hs & Hr).
  exists devices. repeat split; try assumption.
  eapply Forall_impl; [| exact Hr]. cbn. intros; lia.
Qed.

Lemma detect_messages_count threshold (buffer : list (list float64)) :
  (length (detect_messages threshold buffer) <= length buffer)%nat.
Proof.
  unfold detect_messages, enumerate. generalize 0%nat.
  induction buffer as [| b l IH]; intros s; cbn [length seq combine flat_map];
    [lia |].
  rewrite length_app, fault_messages_cases. specialize (IH (S s)).
  destruct (has_data b); [destruct (flt (np_mean b) threshold) |]; cbn; lia.
Qed.

(** X7. One firing of [periodic_tasks] only prints: the buffers, the quit
    flag, the labels and the threads are as before, whether or not the quit
    flag is set.  It prints one combined line, statistics or "no data", and
    then at most one line per device. *)
Theorem periodic_tasks_only_prints (st : state) :
  exists st' m,
    periodic_tasks st = Ok st'
    /\ buffer st' = buffer st /\ quit_flag st' = quit_flag st
    /\ label_text st' = label_text st /\ exits st' = exits st
    /\ stdout st' = stdout st ++ m :: detect_messages FAULT_THRESHOLD (buffer st)
    /\ (m = CombinedNoData \/ exists mean var, m = CombinedStats mean var)
    /\ (length (stdout st') <= length (stdout st) + 1 + length (buffer st))%nat.
Proof.
  destruct (periodic_tasks_total st) as (m & Hm & ->).
  do 2 eexists. split; [reflexivity |]. cbn. repeat split.
  - rewrite combined_stats_message_cases in Hm.
    destruct (existsb has_data (buffer st)); injection Hm as <-; eauto.
  - rewrite length_app. cbn [length].
    pose proof (detect_messages_count FAULT_THRESHOLD (buffer st)). lia.
Qed.

(** ** Loudness: the template's and the monitor's *)

Lemma int16_of_bytes_range (lo hi : byte) :
  (-32768 <= int16_of_bytes lo hi <= 32767)%Z.
Proof. apply wrap16_range. Qed.

Lemma int16_pairs_range (data : list byte) :
  Forall (fun x => (-32768 <= x <= 32767)%Z) (int16_pairs data).
Proof.
  induction data as [| x | lo hi l IH] using pairs_ind; cbn [int16_pairs].
  - constructor.
  - constructor.
  - constructor; [apply int16_of_bytes_range | exact IH].
Qed.

Lemma sum_squares_bounds (signal : list Z) :
  Forall (fun x => (-32768 <= x <= 32767)%Z) signal ->
  (0 <= fold_right Z.add 0 (map (fun x => x * x) signal)
   <= 1073741824 * Z.of_nat (length signal))%Z.
Proof.
  induction 1 as [| x l Hx _ IH]; cbn [map fold_right length]; [lia |].
  rewrite Nat2Z.inj_succ. nia.
Qed.

Lemma int16_pairs_repeat (lo hi : byte) (n : nat) :
  int16_pairs (concat (repeat [lo; hi] n)) = repeat (int16_of_bytes lo hi) n.
Proof. induction n as [| n IH]; cbn; [reflexivity | now rewrite <- IH]. Qed.

Lemma length_concat_pairs (lo hi : byte) (n : nat) :
  length (concat (repeat [lo; hi] n)) = (2 * n)%nat.
Proof. induction n as [| n IH]; cbn in *; [reflexivity | rewrite IH; lia]. Qed.

Lemma sum_squares_repeat (x : Z) (n : nat) :
  fold_right Z.add 0%Z (map (fun x => x * x)%Z (repeat x n))
  = (x * x * Z.of_nat n)%Z.
Proof.
  induction n as [| n IH]; cbn [repeat map fold_right]; [lia |].
  rewrite IH, Nat2Z.inj_succ. lia.
Qed.

(** X14. The loudness of the template, [audioop.rms(data, 2)], is
    refused exactly for a fragment with an odd number of bytes; otherwise it
    is an integer between 0 and 32768, and for a frame whose samples all have
    the same value [x] it is [|x|]. *)
Theorem audioop_rms_is_a_magnitude :
  (forall data, Template.audioop_rms data = None <-> Nat.even (length data) = false)
  /\ (forall data z, Template.audioop_rms data = Some z -> (0 <= z <= 32768)%Z)
  /\ (forall lo hi n,
         (0 < n)%nat ->
         Template.audioop_rms (concat (repeat [lo; hi] n))
         = Some (Z.abs (int16_of_bytes lo hi))).
Proof.
  split; [| split].
  - intros data. unfold Template.audioop_rms.
    destruct (Nat.even (length data)); [| split; reflexivity].
    destruct (int16_pairs data); split; discriminate.
  - intros data z. unfold Template.audioop_rms.
    destruct (Nat.even (length data)); [| discriminate].
    pose proof (sum_squares_bounds (int16_pairs data) (int16_pairs_range data)) as Hb.
    destruct (int16_pairs data) as [| x l] eqn:E.
    + intros H. injection H as <-. lia.
    + intros H. injection H as <-. split; [apply Z.sqrt_nonneg |].
      change 32768%Z with (Z.sqrt 1073741824).
      apply Z.sqrt_le_mono. cbn [map fold_right length] in Hb.
      rewrite Nat2Z.inj_succ in Hb.
      apply Z.div_le_upper_bound; rewrite Zpos_P_of_succ_nat; lia.
  - intros lo hi n Hn. unfold Template.audioop_rms.
    rewrite length_concat_pairs, Nat.even_mul. cbn [Nat.even orb].
    rewrite int16_pairs_repeat.
    set (x := int16_of_bytes lo hi).
    destruct n as [| n]; [lia |].
    change (repeat x (S n)) with (x :: repeat x n). cbv iota.
    change (x :: repeat x n) with (repeat x (S n)).
    rewrite sum_squares_repeat, repeat_length.
    rewrite Z.div_mul by lia.
    rewrite <- Z.abs_square. f_equal. apply Z.sqrt_square. apply Z.abs_nonneg.
Qed.

Lemma audioop_rms_is_a_magnitude_witness :
  (0 <= 200 <= 32768)%Z
  /\ Template.audioop_rms (concat (repeat [xc8; x00] 3))
     = Some (Z.abs (int16_of_bytes xc8 x00)).
Proof.
  split.
  - apply (proj1 (proj2 audioop_rms_is_a_magnitude) [xc8; x00] 200%Z). reflexivity.
  - apply (proj2 (proj2 audioop_rms_is_a_magnitude) xc8 x00 3%nat). lia.
Defined.

Lemma wrap16_small (z : Z) : (-32768 <= z <= 32767)%Z -> wrap16 z = z.
Proof. intros H. unfold wrap16. rewrite Z.mod_small; lia. Qed.

Lemma int16_square_small (signal : list Z) :
  Forall (fun x => (-181 <= x <= 181)%Z) signal ->
  int16_square signal = map (fun x => x * x)%Z signal.
Proof.
  induction 1 as [| x l Hx _ IH]; [reflexivity |].
  cbn [int16_square map]. fold (int16_square l).
  rewrite IH, wrap16_small; [reflexivity | nia].
Qed.

Lemma sum_squares_nonneg (signal : list Z) :
  (0 <= fold_right Z.add 0 (map (fun x => x * x) signal))%Z.
Proof. induction signal as [| x l IH]; cbn [map fold_right]; [lia | nia]. Qed.

(** X15. On a non-empty frame whose samples all lie between -181 and 181
    no square overflows an int16, and the monitor's loudness is the square
    root of the true mean square of the samples. *)
Theorem volume_is_rms_without_overflow (sqrt64 : Q -> Q) (data : list byte)
  (signal : list Z) :
  frombuffer data = Ok signal ->
  signal <> [] ->
  Forall (fun x => (-181 <= x <= 181)%Z) signal ->
  exists q,
    volume sqrt64 data = Ok (Fin (sqrt64 q))
    /\ q == inject_Z (fold_right Z.add 0%Z (map (fun x => x * x)%Z signal))
            / inject_Z (Z.of_nat (length signal)).
Proof.
  intros Hf Hne Hall. unfold volume. rewrite Hf. cbn [bind].
  rewrite (int16_square_small signal Hall). unfold np_mean_int.
  set (sq := map (fun x => (x * x)%Z) signal).
  pose proof (np_mean_total (map of_int sq)) as Hm.
  rewrite total_of_int, length_map in Hm.
  assert (Hlen : length sq = length signal) by apply length_map.
  rewrite Hlen in Hm.
  destruct signal as [| x l]; [congruence |]. cbn [length fdiv_count] in Hm.
  apply feq_Fin_inv in Hm. destruct Hm as (q & Hq & Heq).
  exists q. rewrite Hq. split; [| exact Heq]. cbn [np_sqrt].
  assert (Hpos : 0 <= q).
  { rewrite Heq. apply Qle_shift_div_l; [apply count_pos |].
    rewrite Qmult_0_l. change 0 with (inject_Z 0). rewrite <- Zle_Qle.
    apply sum_squares_nonneg. }
  destruct (Qlt_bool q 0) eqn:E; [| reflexivity].
  apply Qlt_bool_iff in E. now apply Qlt_not_le in E.
Qed.

Lemma volume_is_rms_without_overflow_witness :
  exists q,
    volume sqrt_floor [x03; x00; xfc; xff] = Ok (Fin (sqrt_floor q))
    /\ q == inject_Z (fold_right Z.add 0%Z (map (fun x => x * x)%Z [3; -4]%Z))
            / inject_Z (Z.of_nat (length [3; -4]%Z)).
Proof.
  apply (volume_is_rms_without_overflow sqrt_floor [x03; x00; xfc; xff] [3; -4]%Z).
  - reflexivity.
  - discriminate.
  - repeat constructor; lia.
Defined.

(** ** The properties above at work *)

Lemma log_sound_keeps_latest_witness :
  exists vs,
    Forall2 (fun d v => volume sqrt_floor d = Ok v) [[x03; x00]; [x04; x00]] vs
    /\ snd (log_sound sqrt_floor 0 (map Frame [[x03; x00]; [x04; x00]]) (initial 1))
       = Continue
    /\ nth_error
         (buffer (fst (log_sound sqrt_floor 0 (map Frame [[x03; x00]; [x04; x00]])
                         (initial 1)))) 0
       = Some (most_recent BUFFER_LIMIT ([] ++ vs))
    /\ label_text (fst (log_sound sqrt_floor 0 (map Frame [[x03; x00]; [x04; x00]])
                          (initial 1)))
       = label_text (initial 1) ++ map (pair 0%nat) vs
    /\ length (stdout (fst (log_sound sqrt_floor 0
                              (map Frame [[x03; x00]; [x04; x00]]) (initial 1))))
       = (length (stdout (initial 1)) + length [[x03; x00]; [x04; x00]])%nat.
Proof.
  apply (log_sound_keeps_latest sqrt_floor 0 [[x03; x00]; [x04; x00]] (initial 1) []).
  - reflexivity.
  - cbn. lia.
  - reflexivity.
  - repeat (constructor; [right; reflexivity |]). constructor.
Defined.

Lemma quit_ends_loop_after_one_read_witness :
  snd (log_sound_iteration sqrt_floor 0 (Frame [x03; x00]) (exit_method (initial 1)))
  = Break
  /\ log_sound sqrt_floor 0 [Frame [x03; x00]; Frame [x04; x00]]
               (exit_method (initial 1))
     = log_sound_iteration sqrt_floor 0 (Frame [x03; x00]) (exit_method (initial 1)).
Proof.
  apply (quit_ends_loop_after_one_read sqrt_floor 0 (Frame [x03; x00])
           [Frame [x04; x00]] (exit_method (initial 1))).
  reflexivity.
Defined.

Lemma loop_ends_on_quit_or_error_witness :
  (quit_flag (initial 1) = true
   /\ exits (fst (log_sound_iteration sqrt_floor 0 (Frame [x03]) (initial 1)))
      = exits (initial 1) ++ [(0%nat, StreamClosed)]
   /\ exists b v,
       nth_error (buffer (initial 1)) 0 = Some b
       /\ nth_error
            (buffer (fst (log_sound_iteration sqrt_floor 0 (Frame [x03]) (initial 1))))
            0
          = Some (push b v))
  \/ (exists e,
         stdout (fst (log_sound_iteration sqrt_floor 0 (Frame [x03]) (initial 1)))
         = stdout (initial 1) ++ [ErrorWithDevice 0 e]
         /\ exits (fst (log_sound_iteration sqrt_floor 0 (Frame [x03]) (initial 1)))
            = exits (initial 1) ++ [(0%nat, StreamLeftOpen)]
         /\ buffer (fst (log_sound_iteration sqrt_floor 0 (Frame [x03]) (initial 1)))
            = buffer (initial 1)).
Proof.
  apply (loop_ends_on_quit_or_error sqrt_floor 0 (Frame [x03]) (initial 1)).
  reflexivity.
Defined.

Lemma buffer_written_by_own_thread_only_witness :
  nth_error
    (buffer (run sqrt_floor
                 [LogSound 0 (Frame [x03; x00]); PeriodicTasks; ExitMethod;
                  LogSound 0 (ReadError (OSError (-9987)))]
                 (initial 2))) 1
  = nth_error (buffer (initial 2)) 1.
Proof.
  apply (proj2 (buffer_written_by_own_thread_only sqrt_floor
                  [LogSound 0 (Frame [x03; x00]); PeriodicTasks; ExitMethod;
                   LogSound 0 (ReadError (OSError (-9987)))]
                  (initial 2) 1%nat)).
  intros r [H | [H | [H | [H | []]]]]; discriminate H.
Defined.

Lemma left_loop_freezes_buffer_witness :
  in_loop 0
    (run sqrt_floor [LogSound 0 (Frame [x04; x00]); PeriodicTasks]
         (run sqrt_floor
              [LogSound 0 (Frame [x03; x00]); LogSound 0 (ReadError (OSError (-9987)))]
              (initial 1))) = false
  /\ nth_error
       (buffer (run sqrt_floor [LogSound 0 (Frame [x04; x00]); PeriodicTasks]
                    (run sqrt_floor
                         [LogSound 0 (Frame [x03; x00]);
                          LogSound 0 (ReadError (OSError (-9987)))]
                         (initial 1)))) 0
     = nth_error
         (buffer (run sqrt_floor
                      [LogSound 0 (Frame [x03; x00]);
                       LogSound 0 (ReadError (OSError (-9987)))]
                      (initial 1))) 0.
Proof.
  apply (left_loop_freezes_buffer sqrt_floor
           [LogSound 0 (Frame [x04; x00]); PeriodicTasks]
           (run sqrt_floor
                [LogSound 0 (Frame [x03; x00]); LogSound 0 (ReadError (OSError (-9987)))]
                (initial 1)) 0%nat).
  reflexivity.
Defined.

Lemma volume_range_witness :
  Fin 3 = NaN \/ exists q, Fin 3 = Fin (sqrt_floor q) /\ 0 <= q <= 32767.
Proof.
  apply (@volume_range sqrt_floor [x03; x00] (Fin 3)). reflexivity.
Defined.

